(** * onlyupou: Doris stream-load pipeline and Redis proxy middleware

  A shallow embedding of [onlyupou/pipelines.py], [onlyupou/middlewares.py]
  and [onlyupou/spiders/*.py].  Python objects become records, methods
  become functions in a small state-and-exception monad, and everything the
  program obtains from outside (the HTTP endpoint, [uuid.uuid4], the Redis
  server, [json.dumps], the codecs) is an oracle collected in one
  environment record. *)

From Stdlib Require Import ZArith Ascii String Lia.
From stdpp Require Import base option list strings pretty gmap.

Open Scope Z_scope.

(** ** Python values and exceptions *)

Module Py.

(** A value of Python type [Optional[str]]. *)
Inductive value : Type :=
  | PyNone
  | PyStr (s : string).

#[export] Instance value_eq_dec : EqDecision value.
Proof. solve_decision. Defined.

(** Truth value testing: [None] and [""] are false. *)
Definition truthy (v : value) : bool :=
  match v with
  | PyNone => false
  | PyStr s => negb (String.eqb s "")
  end.

(** The string held by a value known to be one. *)
Definition str_of_value (v : value) : string :=
  match v with PyStr s => s | PyNone => "" end.

(** The exceptions the modelled code raises or lets through. *)
Inductive exn : Type :=
  | HTTPError (code : Z) (body : string)
  | URLError (reason : string)
  | OSError (reason : string)
  | ValueError (msg : string)
  | LookupError (msg : string).

Inductive result (A : Type) : Type :=
  | Return (a : A)
  | Raise (e : exn).
Arguments Return {A} a.
Arguments Raise {A} e.

#[export] Instance exn_eq_dec : EqDecision exn.
Proof. solve_decision. Defined.

#[export] Instance result_eq_dec {A} `{EqDecision A} : EqDecision (result A).
Proof. solve_decision. Defined.

Definition returned {A} (r : result A) : bool :=
  match r with Return _ => true | Raise _ => false end.

(** [str.capitalize] on ASCII text: first character upper-cased, the rest
    lower-cased.  [urllib.request.Request.add_header] stores every header
    under its capitalised name. *)
Definition upper (c : ascii) : ascii :=
  let n := nat_of_ascii c in
  if ((97 <=? n)%nat && (n <=? 122)%nat)%bool then ascii_of_nat (n - 32) else c.

Definition lower (c : ascii) : ascii :=
  let n := nat_of_ascii c in
  if ((65 <=? n)%nat && (n <=? 90)%nat)%bool then ascii_of_nat (n + 32) else c.

Fixpoint map_string (f : ascii -> ascii) (s : string) : string :=
  match s with
  | EmptyString => EmptyString
  | String c s' => String (f c) (map_string f s')
  end.

Definition capitalize (s : string) : string :=
  match s with
  | EmptyString => EmptyString
  | String c s' => String (upper c) (map_string lower s')
  end.

(** [s.rstrip("/")]. *)
Fixpoint rstrip_slash (s : string) : string :=
  match s with
  | EmptyString => EmptyString
  | String c s' =>
      match rstrip_slash s' with
      | EmptyString => if Ascii.eqb c "/" then EmptyString else String c EmptyString
      | r => String c r
      end
  end.

(** [sep.join(parts)]. *)
Fixpoint str_join (sep : string) (parts : list string) : string :=
  match parts with
  | [] => ""
  | [p] => p
  | p :: ps => p +:+ sep +:+ str_join sep ps
  end.

Definition newline : string := String (ascii_of_nat 10) EmptyString.

End Py.

Import Py.

(** ** A state-and-exception monad

    A method is a function from the mutable state to the new state and either
    a return value or a raised exception.  As in Python, the mutations done
    before a [raise] stay done. *)

Definition M (S A : Type) : Type := S -> S * result A.

Definition ret {S A} (a : A) : M S A := fun s => (s, Return a).

Definition raise {S A} (e : exn) : M S A := fun s => (s, Raise e).

Definition bind {S A B} (m : M S A) (k : A -> M S B) : M S B :=
  fun s =>
    match m s with
    | (s', Return a) => k a s'
    | (s', Raise e) => (s', Raise e)
    end.

Definition gets {S A} (f : S -> A) : M S A := fun s => (s, Return (f s)).

Definition modify {S} (f : S -> S) : M S unit := fun s => (f s, Return tt).

Notation "'let*' x ':=' m 'in' k" := (bind m (fun x => k))
  (at level 10, x pattern, m at level 100, k at level 200).
Notation "m1 ';;;' m2" := (bind m1 (fun _ => m2))
  (at level 100, m2 at level 200, right associativity).

(** [for x in xs: body(x)]: the loop stops at the first exception. *)
Fixpoint for_each {S A} (xs : list A) (body : A -> M S unit) : M S unit :=
  match xs with
  | [] => ret tt
  | x :: xs' => body x ;;; for_each xs' body
  end.

(** ** Items *)

(** A scraped item: an ordered mapping from field names to values. *)
Definition item : Type := list (string * value).

(** [d.get(field)] on such a mapping. *)
Fixpoint item_get (it : item) (field : string) : value :=
  match it with
  | [] => PyNone
  | (k, v) :: rest => if String.eqb k field then v else item_get rest field
  end.

(** [ItemAdapter(item).asdict()]: the item's fields as a plain dict. *)
Definition asdict (it : item) : item := it.

(** ** urllib.request *)

Module Http.

Record request : Type := Request {
  url : string;
  data : string;
  method : string;
  headers : gmap string string
}.

(** [Request.add_header(key, val)]: [self.headers[key.capitalize()] = val]. *)
Definition add_header (key val : string) (r : request) : request :=
  {| url := url r; data := data r; method := method r;
     headers := <[capitalize key := val]> (headers r) |}.

(** How a [load] call ends at the HTTP layer: [urlopen] answers or raises,
    or a [ValueError] is raised, as [Request(url, ...)] does for a URL it
    cannot parse. *)
Inductive outcome : Type :=
  | Response (body : string)
  | RaiseHTTPError (code : Z) (body : string)
  | RaiseURLError (reason : string)
  | RaiseOSError (reason : string)
  | RaiseValueError (msg : string).

Definition ok (o : outcome) : bool :=
  match o with Response _ => true | _ => false end.

End Http.

(** ** Logging *)

Inductive log_record : Type :=
  | DebugLoadSucceeded (database table body : string)
  | ErrorHTTP (database table : string) (code : Z) (body : string)
  | ErrorNetwork (database table reason : string)
  | InfoOpened (spider_name database table : string)
  | InfoClosed (spider_name : string)
  | DebugFlushing (count : nat) (database table : string)
  | DebugFallbackProxy (proxy : string)
  | ErrorRedis (reason : string)
  | DebugNoProxy (proxy_key : string).

(** ** pipelines.py: DorisStreamLoader *)

Module Loader.

(** One invocation of [DorisStreamLoader.load], as seen from outside: the
    arguments, the request put on the wire (none if [Request] refused the
    URL), and how the call ended. *)
Record call : Type := Call {
  c_database : string;
  c_table : string;
  c_records : list item;
  c_request : option Http.request;
  c_outcome : Http.outcome
}.

(** The world the loader acts on: how often [uuid.uuid4] was drawn, the
    calls made so far in call order, and the log output. *)
Record world : Type := World {
  uuid_draws : nat;
  sent : list call;
  logs : list log_record
}.

Definition no_traffic : world := {| uuid_draws := 0; sent := []; logs := [] |}.

(** What the loader takes from outside: [json.dumps(_, ensure_ascii=False)]
    (total on items, whose values are strings or [None]),
    [base64.b64encode], the sequence of tokens [str(uuid.uuid4())] yields,
    whether [urllib.request.Request] refuses a URL (then with the message of
    its [ValueError], as for a URL without scheme), and the endpoint's
    reaction to the request of the n-th [load] call. *)
Record env : Type := Env {
  json_dumps : item -> string;
  b64encode : string -> string;
  uuid4 : nat -> string;
  request_refused : string -> option string;
  urlopen : nat -> Http.request -> Http.outcome
}.

Record DorisStreamLoader : Type := {
  host : string;
  user : string;
  password : string;
  timeout : Z;
  label_prefix : string;
  extra_headers : list (string * string)
}.

(** [DorisStreamLoader.__init__]. *)
Definition init (host_ : string) (user_ password_ : value) (timeout_ : Z)
    (label_prefix_ : string) (extra_headers_ : option (list (string * string)))
    : DorisStreamLoader :=
  {| host := rstrip_slash host_;
     user := match user_ with PyStr s => s | PyNone => "" end;
     password := match password_ with PyStr s => s | PyNone => "" end;
     timeout := timeout_;
     label_prefix := label_prefix_;
     extra_headers := default [] extra_headers_ |}.

Definition log (r : log_record) : M world unit :=
  modify (fun w => {| uuid_draws := uuid_draws w; sent := sent w; logs := logs w ++ [r] |}).

Section WithEnv.
Variable E : env.

(** [_generate_label]: [f"{self.label_prefix}-{uuid.uuid4()}"]. *)
Definition _generate_label (self : DorisStreamLoader) : M world string :=
  fun w =>
    ({| uuid_draws := S (uuid_draws w); sent := sent w; logs := logs w |},
     Return (label_prefix self +:+ "-" +:+ uuid4 E (uuid_draws w))).

(** The [for header, value in self.extra_headers.items()] loop. *)
Definition add_extra_headers (hs : list (string * string)) (r : Http.request)
    : Http.request :=
  fold_left (fun acc hv => Http.add_header (fst hv) (snd hv) acc) hs r.

(** The URL of line 43. *)
Definition request_url (self : DorisStreamLoader) (database table : string)
    : string :=
  host self +:+ "/api/" +:+ database +:+ "/" +:+ table +:+ "/_stream_load".

(** Lines 41-55 of [load]: the request as it stands before [urlopen], once
    [Request] has accepted the URL. *)
Definition build_request (self : DorisStreamLoader) (database table : string)
    (records : list item) (label : string) : Http.request :=
  let payload := str_join newline (map (json_dumps E) records) in
  let url_ := host self +:+ "/api/" +:+ database +:+ "/" +:+ table +:+ "/_stream_load" in
  let r0 := {| Http.url := url_; Http.data := payload; Http.method := "PUT";
               Http.headers := ∅ |} in
  let r1 := Http.add_header "Content-Type" "application/json; charset=UTF-8" r0 in
  let r2 := Http.add_header "format" "json" r1 in
  let r3 := Http.add_header "strip_outer_array" "true" r2 in
  let r4 := Http.add_header "label" label r3 in
  let r5 :=
    if negb (String.eqb (user self) "")
    then Http.add_header "Authorization"
           ("Basic " +:+ b64encode E (user self +:+ ":" +:+ password self)) r4
    else r4 in
  add_extra_headers (extra_headers self) r5.

(** [urlopen(request, timeout=self.timeout)], recorded with the arguments of
    the [load] call it belongs to. *)
Definition perform (database table : string) (records : list item)
    (r : Http.request) : M world Http.outcome :=
  fun w =>
    let o := urlopen E (length (sent w)) r in
    ({| uuid_draws := uuid_draws w;
        sent := sent w ++ [Call database table records (Some r) o];
        logs := logs w |},
     Return o).

(** A [load] call that ends at line 44, where [Request] raises: it is
    recorded without a request. *)
Definition refuse (database table : string) (records : list item) (msg : string)
    : M world unit :=
  modify (fun w =>
            {| uuid_draws := uuid_draws w;
               sent := sent w
                       ++ [Call database table records None (Http.RaiseValueError msg)];
               logs := logs w |}).

(** [DorisStreamLoader.load].  [Request(url, ...)] comes before the label
    is generated and outside the [try]: when it raises, no token is drawn and
    nothing is logged. *)
Definition load (self : DorisStreamLoader) (database table : string)
    (records : list item) : M world unit :=
  match request_refused E (request_url self database table) with
  | Some msg => refuse database table records msg ;;; raise (ValueError msg)
  | None =>
      let* label := _generate_label self in
      let request := build_request self database table records label in
      let* o := perform database table records request in
      match o with
      | Http.Response body => log (DebugLoadSucceeded database table body)
      | Http.RaiseHTTPError code body =>
          log (ErrorHTTP database table code body) ;;; raise (HTTPError code body)
      | Http.RaiseURLError reason =>
          log (ErrorNetwork database table reason) ;;; raise (URLError reason)
      | Http.RaiseOSError reason => raise (OSError reason)
      | Http.RaiseValueError msg => raise (ValueError msg)
      end
  end.

End WithEnv.

(** Consecutive [load] calls made by a caller that carries on after a
    failed one. *)
Definition load_all (E : env) (self : DorisStreamLoader)
    (args : list (string * string * list item)) (w : world) : world :=
  fold_left (fun w a => fst (load E self (fst (fst a)) (snd (fst a)) (snd a) w)) args w.

(** The [label] header a call carried on the wire, if it got that far. *)
Definition label_of (c : call) : option string :=
  match c_request c with
  | Some r => Http.headers r !! "Label"
  | None => None
  end.

End Loader.

(** ** Insertion-ordered dictionaries

    [DorisPipeline.buffers] is a [dict]; [close_spider] walks it in insertion
    order, so it is kept as an association list with unique keys. *)

Module Dict.

Section Ops.
Context {K V : Type} `{EqDecision K}.

Fixpoint get (k : K) (d : list (K * V)) : option V :=
  match d with
  | [] => None
  | (k', v) :: d' => if decide (k' = k) then Some v else get k d'
  end.

(** [d.setdefault(k, v)]: a missing key is added at the end. *)
Fixpoint setdefault (k : K) (v : V) (d : list (K * V)) : list (K * V) :=
  match d with
  | [] => [(k, v)]
  | (k', v') :: d' =>
      if decide (k' = k) then (k', v') :: d' else (k', v') :: setdefault k v d'
  end.

(** In-place mutation of the object stored under [k]. *)
Fixpoint update (k : K) (f : V -> V) (d : list (K * V)) : list (K * V) :=
  match d with
  | [] => []
  | (k', v) :: d' =>
      if decide (k' = k) then (k', f v) :: d' else (k', v) :: update k f d'
  end.

Definition keys (d : list (K * V)) : list K := map fst d.

End Ops.

End Dict.

(** ** spiders/base.py and spiders/example.py *)

Module Spiders.

(** What [DorisPipeline] looks at on a spider: [getattr] distinguishes a
    missing attribute ([None] here) from one that is present, whatever its
    value.  [get_doris_target] returns a 2-tuple, or something false. *)
Record Spider : Type := {
  name : string;
  doris_database : option value;
  doris_table : option value;
  get_doris_target : option (item -> option (value * value))
}.

(** [DorisTargetMixin.get_doris_target]. *)
Definition mixin_get_doris_target (database table : value) (it : item)
    : option (value * value) :=
  Some (database, table).

(** A [DorisSpider] subclass that only sets the two class attributes. *)
Definition DorisSpider (name_ : string) (database table : value) : Spider :=
  {| name := name_;
     doris_database := Some database;
     doris_table := Some table;
     get_doris_target := Some (mixin_get_doris_target database table) |}.

(** Python's [x or y] on strings. *)
Definition or_else (x : value) (y : string) : value :=
  if truthy x then x else PyStr y.

(** [QuotesSpider.get_doris_target]. *)
Definition quotes_get_doris_target (database table : value) (it : item)
    : option (value * value) :=
  let author := item_get it "description" in
  if truthy author
  then Some (or_else database "demo", or_else table "quotes")
  else Some (or_else database "demo", PyStr "quotes_unknown_author").

Definition QuotesSpider : Spider :=
  {| name := "example";
     doris_database := Some (PyStr "demo");
     doris_table := Some (PyStr "quotes");
     get_doris_target :=
       Some (quotes_get_doris_target (PyStr "demo") (PyStr "quotes")) |}.

End Spiders.

(** ** pipelines.py: DorisPipeline *)

Module Pipeline.

Import Spiders.

Definition key : Type := (string * string)%type.

Record DorisPipeline : Type := {
  loader : Loader.DorisStreamLoader;
  default_database : string;
  default_table : string;
  batch_size : Z;
  buffers : list (key * list item)
}.

(** [DorisPipeline.__init__]. *)
Definition init (loader_ : Loader.DorisStreamLoader)
    (default_database_ default_table_ : string) (batch_size_ : Z)
    : DorisPipeline :=
  {| loader := loader_;
     default_database := default_database_;
     default_table := default_table_;
     batch_size := batch_size_;
     buffers := [] |}.

(** The pipeline object together with the world its loader talks to. *)
Record state : Type := State {
  self : DorisPipeline;
  net : Loader.world
}.

Definition start (p : DorisPipeline) : state :=
  {| self := p; net := Loader.no_traffic |}.

Definition with_buffers (f : list (key * list item) -> list (key * list item))
    (st : state) : state :=
  {| self := {| loader := loader (self st);
                default_database := default_database (self st);
                default_table := default_table (self st);
                batch_size := batch_size (self st);
                buffers := f (buffers (self st)) |};
     net := net st |}.

(** The contents of the list object stored under [k]. *)
Definition buffer_of (k : key) (st : state) : list item :=
  default [] (Dict.get k (buffers (self st))).

Definition lift_net {A} (m : M Loader.world A) : M state A :=
  fun st =>
    let (w, r) := m (net st) in ({| self := self st; net := w |}, r).

Definition unresolved_message : string :=
  "Doris target could not be resolved. Provide doris_database and doris_table on the spider.".

(** [DorisPipeline._resolve_target]. *)
Definition _resolve_target (p : DorisPipeline) (spider : Spider) (it : item)
    : result (string * string) :=
  let database := PyStr (default_database p) in
  let table := PyStr (default_table p) in
  let '(database, table) :=
    match get_doris_target spider with
    | Some getter =>
        match getter it with
        | Some resolved => resolved
        | None => (database, table)
        end
    | None => (database, table)
    end in
  let database := default database (doris_database spider) in
  let table := default table (doris_table spider) in
  if negb (truthy database) || negb (truthy table)
  then Raise (ValueError unresolved_message)
  else Return (str_of_value database, str_of_value table).

(** The state after [setdefault] and [append] in [process_item]: the record
    sits at the end of the buffer of [k]. *)
Definition buffered (k : key) (it : item) (st : state) : state :=
  with_buffers (Dict.update k (fun buffer => buffer ++ [asdict it]))
    (with_buffers (Dict.setdefault k []) st).

Section WithEnv.
Variable E : Loader.env.

(** [DorisPipeline._flush(database, table, buffer)].  At both call sites
    [buffer] is the list object stored under [(database, table)], so the
    model reads and clears it there. *)
Definition _flush (database table : string) : M state unit :=
  let* buffer := gets (buffer_of (database, table)) in
  match buffer with
  | [] => ret tt
  | _ :: _ =>
      lift_net (Loader.log (DebugFlushing (length buffer) database table)) ;;;
      let* ld := gets (fun st => loader (self st)) in
      lift_net (Loader.load E ld database table buffer) ;;;
      modify (with_buffers (Dict.update (database, table) (fun _ => [])))
  end.

(** The [load] call a flush of [(database, table)] issues in state [st]:
    the buffer's contents, under the next label, with the endpoint's answer;
    or no request at all, if [Request] refuses the URL. *)
Definition next_call (database table : string) (st : state) : Loader.call :=
  let buffer := buffer_of (database, table) st in
  match Loader.request_refused E
          (Loader.request_url (loader (self st)) database table) with
  | Some msg =>
      Loader.Call database table buffer None (Http.RaiseValueError msg)
  | None =>
      let label :=
        Loader.label_prefix (loader (self st)) +:+ "-"
        +:+ Loader.uuid4 E (Loader.uuid_draws (net st)) in
      let req := Loader.build_request E (loader (self st)) database table buffer label in
      Loader.Call database table buffer (Some req)
        (Loader.urlopen E (length (Loader.sent (net st))) req)
  end.

(** The [load] calls a flush of [(database, table)] makes: none for an empty
    buffer, one otherwise. *)
Definition flush_calls (database table : string) (st : state) : list Loader.call :=
  match buffer_of (database, table) st with
  | [] => []
  | _ :: _ => [next_call database table st]
  end.

(** [DorisPipeline.process_item]. *)
Definition process_item (it : item) (spider : Spider) : M state item :=
  let* target := (fun st => (st, _resolve_target (self st) spider it)) in
  let database := fst target in
  let table := snd target in
  let k : key := (database, table) in
  modify (with_buffers (Dict.setdefault k [])) ;;;
  modify (with_buffers (Dict.update k (fun buffer => buffer ++ [asdict it]))) ;;;
  let* buffer := gets (buffer_of k) in
  let* size := gets (fun st => batch_size (self st)) in
  (if size <=? Z.of_nat (length buffer) then _flush database table else ret tt) ;;;
  ret it.

(** [DorisPipeline.close_spider]: the loop runs over a snapshot of the
    dict's entries, each holding a reference to the live list object. *)
Definition close_entry (entry : key * list item) : M state unit :=
  let database := fst (fst entry) in
  let table := snd (fst entry) in
  let* buffer := gets (buffer_of (database, table)) in
  match buffer with
  | [] => ret tt
  | _ :: _ => _flush database table
  end.

Definition close_spider (spider : Spider) : M state unit :=
  let* entries := gets (fun st => buffers (self st)) in
  for_each entries close_entry ;;;
  lift_net (Loader.log (InfoClosed (name spider))).

(** [DorisPipeline.open_spider]. *)
Definition open_spider (spider : Spider) : M state unit :=
  let* p := gets self in
  lift_net (Loader.log (InfoOpened (name spider) (default_database p) (default_table p))).

(** The host crawler hands every scraped item to [process_item]; an
    exception raised there is caught by the host, which goes on with the next
    item.  [close_spider] is called once at the end. *)
Definition submit (spider : Spider) (st : state) (it : item) : state :=
  fst (process_item it spider st).

Definition submit_all (spider : Spider) (items : list item) (st : state) : state :=
  fold_left (submit spider) items st.

Definition session (spider : Spider) (items : list item) (st : state)
    : state * result unit :=
  close_spider spider (submit_all spider items st).

End WithEnv.

(** The destination a [load] call was made for. *)
Definition key_of (c : Loader.call) : key :=
  (Loader.c_database c, Loader.c_table c).

(** The record batches handed to [load] for destination [k], in call order. *)
Definition batches_for (k : key) (calls : list Loader.call) : list (list item) :=
  Loader.c_records <$> filter (fun c => key_of c = k) calls.

(** What flushing a buffer with contents [buffer] sends: nothing if it is
    empty, else the contents as one batch. *)
Definition batch_of (buffer : list item) : list (list item) :=
  match buffer with
  | [] => []
  | _ :: _ => [buffer]
  end.

(** The methods never assign to the configuration fields. *)
Definition same_config (p q : DorisPipeline) : Prop :=
  loader p = loader q
  /\ default_database p = default_database q
  /\ default_table p = default_table q
  /\ batch_size p = batch_size q.

(** The records submitted for destination [k], in submission order. *)
Definition submitted_for (p : DorisPipeline) (spider : Spider) (k : key)
    (items : list item) : list item :=
  asdict <$> filter (fun it => _resolve_target p spider it = Return k) items.

Definition all_ok (calls : list Loader.call) : Prop :=
  Forall (fun c => Http.ok (Loader.c_outcome c) = true) calls.

(** Nothing lost, duplicated or reordered so far: per destination, the
    batches already handed to [load] followed by what is still buffered are
    the records submitted, in order. *)
Definition conserved (p : DorisPipeline) (spider : Spider) (done : list item)
    (st : state) : Prop :=
  forall k,
    concat (batches_for k (Loader.sent (net st))) ++ buffer_of k st
    = submitted_for p spider k done.

(** While records are being submitted and every load succeeds, each batch
    sent is a full one and each buffer is short of one. *)
Definition full_batches (p : DorisPipeline) (st : state) : Prop :=
  Forall (fun c => Z.of_nat (length (Loader.c_records c)) = batch_size p)
    (Loader.sent (net st))
  /\ forall k, Z.of_nat (length (buffer_of k st)) < batch_size p.

(** [ceil(n / b)] on integers. *)
Definition ceil_div (n b : Z) : Z := - ((- n) / b).

End Pipeline.

(** ** middlewares.py: RedisProxyMiddleware *)

Module Middleware.

(** What [client.srandmember(key)] can do. *)
Inductive reply : Type :=
  | RedisRaises (reason : string)
  | Nil
  | ReplyBytes (b : string)
  | ReplyStr (s : string).

(** The Redis server's answer to the n-th query, and
    [bytes.decode(encoding, errors="ignore")], which returns the text or
    raises (a [LookupError] for an encoding it does not know). *)
Record env : Type := Env {
  srandmember : nat -> string -> reply;
  decode : string -> string -> result string
}.

Record RedisProxyMiddleware : Type := {
  redis_url : string;
  proxy_key : string;
  encoding : string;
  fallback_proxy : value;
  client : option string
}.

(** A request, as far as the middleware is concerned: its [meta] dict. *)
Record Request : Type := { meta : gmap string value }.

(** [request.meta.get("proxy")]. *)
Definition meta_get (k : string) (r : Request) : value :=
  default PyNone (meta r !! k).

(** The request being processed, the keys queried on the store so far, and
    the log output. *)
Record state : Type := State {
  request : Request;
  queries : list string;
  logs : list log_record
}.

Definition log (r : log_record) : M state unit :=
  modify (fun st => {| request := request st; queries := queries st;
                       logs := logs st ++ [r] |}).

(** [request.meta["proxy"] = v]. *)
Definition set_proxy (v : value) : M state unit :=
  modify (fun st => {| request := {| meta := <["proxy" := v]> (meta (request st)) |};
                       queries := queries st; logs := logs st |}).

Section WithEnv.
Variable E : env.

Definition query (k : string) : M state reply :=
  fun st =>
    ({| request := request st; queries := queries st ++ [k]; logs := logs st |},
     Return (srandmember E (length (queries st)) k)).

(** [RedisProxyMiddleware._get_proxy].  Only [srandmember] is inside the
    [try]; what [decode] raises goes to the caller. *)
Definition _get_proxy (self : RedisProxyMiddleware) : M state value :=
  match client self with
  | None => ret PyNone
  | Some _ =>
      let* proxy := query (proxy_key self) in
      match proxy with
      | RedisRaises reason => log (ErrorRedis reason) ;;; ret PyNone
      | Nil => log (DebugNoProxy (proxy_key self)) ;;; ret PyNone
      | ReplyBytes b =>
          match decode E (encoding self) b with
          | Return text => ret (PyStr text)
          | Raise e => raise e
          end
      | ReplyStr s => ret (PyStr s)
      end
  end.

(** [RedisProxyMiddleware.process_request]. *)
Definition process_request (self : RedisProxyMiddleware) : M state unit :=
  let* current := gets (fun st => meta_get "proxy" (request st)) in
  if truthy current then ret tt
  else
    let* proxy := _get_proxy self in
    if truthy proxy then set_proxy proxy
    else if truthy (fallback_proxy self)
    then log (DebugFallbackProxy (str_of_value (fallback_proxy self))) ;;;
         set_proxy (fallback_proxy self)
    else ret tt.

(** [process_request] called [n] times in a row on the same request. *)
Fixpoint repeat_process_request (self : RedisProxyMiddleware) (n : nat)
    : M state unit :=
  match n with
  | O => ret tt
  | S n' => process_request self ;;; repeat_process_request self n'
  end.

End WithEnv.

End Middleware.

(** ** from_crawler and __init__: building the components from settings *)

Module Crawler.

(** What the settings accessors return for the names the two
    [from_crawler] methods read: [getbool], [getint] and [getdict] with
    their defaults applied, [get] with the value or [None]. *)
Record Settings : Type := {
  DORIS_ENABLED : bool;
  DORIS_HOST : value;
  DORIS_USER : value;
  DORIS_PASSWORD : value;
  DORIS_TIMEOUT : Z;
  DORIS_LABEL_PREFIX : string;
  DORIS_STREAM_LOAD_HEADERS : list (string * string);
  DORIS_DEFAULT_DATABASE : value;
  DORIS_DEFAULT_TABLE : value;
  DORIS_BATCH_SIZE : Z;
  REDIS_PROXY_URL : value;
  REDIS_PROXY_KEY : value;
  REDIS_PROXY_ENCODING : string;
  REDIS_PROXY_FALLBACK : value
}.

(** The places that raise [NotConfigured]. *)
Inductive not_configured : Type :=
  | DorisDisabled
  | DorisHostMissing
  | DorisDefaultsMissing
  | RedisPackageMissing
  | RedisUnreachable (redis_url : string)
  | RedisProxyNotConfigured.

Inductive configured (A : Type) : Type :=
  | Configured (a : A)
  | NotConfigured (why : not_configured).
Arguments Configured {A} a.
Arguments NotConfigured {A} why.

(** [DorisPipeline.from_crawler]. *)
Definition pipeline_from_crawler (s : Settings)
    : configured Pipeline.DorisPipeline :=
  if negb (DORIS_ENABLED s) then NotConfigured DorisDisabled
  else
    let host := DORIS_HOST s in
    if negb (truthy host) then NotConfigured DorisHostMissing
    else
      let loader :=
        Loader.init (str_of_value host) (DORIS_USER s) (DORIS_PASSWORD s)
          (DORIS_TIMEOUT s) (DORIS_LABEL_PREFIX s)
          (Some (DORIS_STREAM_LOAD_HEADERS s)) in
      let default_database := DORIS_DEFAULT_DATABASE s in
      let default_table := DORIS_DEFAULT_TABLE s in
      if negb (truthy default_database) || negb (truthy default_table)
      then NotConfigured DorisDefaultsMissing
      else
        Configured
          (Pipeline.init loader (str_of_value default_database)
             (str_of_value default_table) (DORIS_BATCH_SIZE s)).

(** The [redis] module as the middleware sees it: [None] when the import
    failed; otherwise [redis.from_url], which yields a client or raises
    ([None]). *)
Definition redis_module : Type := option (string -> option string).

(** [RedisProxyMiddleware.__init__]. *)
Definition middleware_init (redis : redis_module) (redis_url proxy_key : string)
    (encoding : string) (fallback_proxy : value)
    : configured Middleware.RedisProxyMiddleware :=
  match redis with
  | None => NotConfigured RedisPackageMissing
  | Some from_url =>
      match from_url redis_url with
      | Some c =>
          Configured
            {| Middleware.redis_url := redis_url;
               Middleware.proxy_key := proxy_key;
               Middleware.encoding := encoding;
               Middleware.fallback_proxy := fallback_proxy;
               Middleware.client := Some c |}
      | None => NotConfigured (RedisUnreachable redis_url)
      end
  end.

(** [RedisProxyMiddleware.from_crawler]. *)
Definition middleware_from_crawler (redis : redis_module) (s : Settings)
    : configured Middleware.RedisProxyMiddleware :=
  let redis_url := REDIS_PROXY_URL s in
  let proxy_key := REDIS_PROXY_KEY s in
  if negb (truthy redis_url) || negb (truthy proxy_key)
  then NotConfigured RedisProxyNotConfigured
  else
    middleware_init redis (str_of_value redis_url) (str_of_value proxy_key)
      (REDIS_PROXY_ENCODING s) (REDIS_PROXY_FALLBACK s).

End Crawler.

(** ** Observations on strings and call logs *)

Module Observe.

Fixpoint ends_with_slash (s : string) : bool :=
  match s with
  | EmptyString => false
  | String c EmptyString => Ascii.eqb c "/"
  | String _ s' => ends_with_slash s'
  end.

Fixpoint slashes (n : nat) : string :=
  match n with
  | O => EmptyString
  | S n' => String "/" (slashes n')
  end.

(** How many line feeds a text holds. *)
Fixpoint count_newlines (s : string) : nat :=
  match s with
  | EmptyString => O
  | String c s' =>
      (if Ascii.eqb c (ascii_of_nat 10) then 1 else 0)%nat + count_newlines s'
  end.

(** The batches of the calls the endpoint accepted, for destination [k]. *)
Definition delivered (k : Pipeline.key) (calls : list Loader.call)
    : list (list item) :=
  Pipeline.batches_for k
    (filter (fun c => Http.ok (Loader.c_outcome c) = true) calls).

Definition nonempty_key (k : Pipeline.key) : Prop :=
  fst k <> "" /\ snd k <> "".

(** The destinations a list of items resolves to, failures left out. *)
Definition resolved_keys (p : Pipeline.DorisPipeline) (spider : Spiders.Spider)
    (items : list item) : list Pipeline.key :=
  omap (fun it =>
          match Pipeline._resolve_target p spider it with
          | Return k => Some k
          | Raise _ => None
          end) items.

(** A list of keys without its repetitions, in order of first occurrence,
    continuing from [seen]. *)
Definition first_seen (seen : list Pipeline.key) (ks : list Pipeline.key)
    : list Pipeline.key :=
  fold_left (fun acc k => if decide (k ∈ acc) then acc else acc ++ [k]) ks seen.


(** The request of [load] as it stands before the loop over the extra
    headers: the fixed headers, the label, and the credentials if any. *)
Definition signed_request (E : Loader.env) (ld : Loader.DorisStreamLoader)
    (database table : string) (records : list item) (label : string)
    : Http.request :=
  let r :=
    Http.add_header "label" label
      (Http.add_header "strip_outer_array" "true"
         (Http.add_header "format" "json"
            (Http.add_header "Content-Type" "application/json; charset=UTF-8"
               {| Http.url :=
                    Loader.host ld +:+ "/api/" +:+ database +:+ "/" +:+ table
                    +:+ "/_stream_load";
                  Http.data := str_join newline (map (Loader.json_dumps E) records);
                  Http.method := "PUT";
                  Http.headers := ∅ |}))) in
  if negb (String.eqb (Loader.user ld) "")
  then Http.add_header "Authorization"
         ("Basic " +:+ Loader.b64encode E (Loader.user ld +:+ ":" +:+ Loader.password ld))
         r
  else r.

(** The exception [load] raises for an answer of the endpoint. *)
Definition raised_for (o : Http.outcome) : result unit :=
  match o with
  | Http.Response _ => Return tt
  | Http.RaiseHTTPError code body => Raise (HTTPError code body)
  | Http.RaiseURLError reason => Raise (URLError reason)
  | Http.RaiseOSError reason => Raise (OSError reason)
  | Http.RaiseValueError msg => Raise (ValueError msg)
  end.

(** The proxy a reply of the store stands for: none for an error or an
    empty collection, the decoded text for bytes, or the exception [decode]
    raises. *)
Definition reply_value (E : Middleware.env) (self : Middleware.RedisProxyMiddleware)
    (r : Middleware.reply) : result value :=
  match r with
  | Middleware.RedisRaises _ => Return PyNone
  | Middleware.Nil => Return PyNone
  | Middleware.ReplyBytes b =>
      match Middleware.decode E (Middleware.encoding self) b with
      | Return text => Return (PyStr text)
      | Raise e => Raise e
      end
  | Middleware.ReplyStr s => Return (PyStr s)
  end.

(** What [_get_proxy] comes back with in state [st]. *)
Definition store_answer (E : Middleware.env) (self : Middleware.RedisProxyMiddleware)
    (st : Middleware.state) : result value :=
  match Middleware.client self with
  | Some _ =>
      reply_value E self
        (Middleware.srandmember E (length (Middleware.queries st))
           (Middleware.proxy_key self))
  | None => Return PyNone
  end.

End Observe.

(** ** The resolution tiers as the specification names them

    These definitions follow the specification's wording, to be compared
    with [_resolve_target]. *)

Module Tiers.

Import Spiders Pipeline.

Definition nonempty_pair (pr : value * value) : bool :=
  truthy (fst pr) && truthy (snd pr).

(** Tier 1: what the per-record override function yields, if registered. *)
Definition override_pair (spider : Spider) (it : item) : option (value * value) :=
  match get_doris_target spider with
  | Some getter => getter it
  | None => None
  end.

(** Tier 2: the spider's static attributes. *)
Definition static_pair (spider : Spider) : value * value :=
  (default PyNone (doris_database spider), default PyNone (doris_table spider)).

(** Tier 3: the pipeline's defaults. *)
Definition global_pair (p : DorisPipeline) : value * value :=
  (PyStr (default_database p), PyStr (default_table p)).

Definition as_key (pr : value * value) : key :=
  (str_of_value (fst pr), str_of_value (snd pr)).

(** The first tier, in the order 1, 2, 3, that yields a non-empty pair. *)
Definition first_nonempty (p : DorisPipeline) (spider : Spider) (it : item)
    : option key :=
  match override_pair spider it with
  | Some pr =>
      if nonempty_pair pr then Some (as_key pr)
      else if nonempty_pair (static_pair spider) then Some (as_key (static_pair spider))
      else if nonempty_pair (global_pair p) then Some (as_key (global_pair p))
      else None
  | None =>
      if nonempty_pair (static_pair spider) then Some (as_key (static_pair spider))
      else if nonempty_pair (global_pair p) then Some (as_key (global_pair p))
      else None
  end.

(** Every database name, respectively table name, any tier has to offer. *)
Definition database_offers (p : DorisPipeline) (spider : Spider) (it : item)
    : list value :=
  fst (global_pair p)
  :: match override_pair spider it with Some pr => [fst pr] | None => [] end
  ++ match doris_database spider with Some v => [v] | None => [] end.

Definition table_offers (p : DorisPipeline) (spider : Spider) (it : item)
    : list value :=
  snd (global_pair p)
  :: match override_pair spider it with Some pr => [snd pr] | None => [] end
  ++ match doris_table spider with Some v => [v] | None => [] end.

Definition all_empty (vs : list value) : bool :=
  forallb (fun v => negb (truthy v)) vs.

End Tiers.

(** ** Concrete environments used in the examples *)

Module Fixtures.

Definition toy_dumps (it : item) : string :=
  "{" +:+ str_join "," (map fst it) +:+ "}".

(** Distinct tokens for distinct draws. *)
Definition counter_uuid4 (n : nat) : string := "tok" +:+ pretty n.

(** [Request] refuses a URL that does not begin with a scheme: one or more
    characters other than ["/"] and [":"], then [":"]. *)
Fixpoint scheme_from (seen : bool) (url : string) : bool :=
  match url with
  | EmptyString => false
  | String c rest =>
      if Ascii.eqb c ":" then seen
      else if Ascii.eqb c "/" then false
      else scheme_from true rest
  end.

Definition unknown_url_type (url : string) : option string :=
  if scheme_from false url then None
  else Some ("unknown url type: '" +:+ url +:+ "'").

(** An endpoint that accepts everything. *)
Definition healthy : Loader.env :=
  {| Loader.json_dumps := toy_dumps;
     Loader.b64encode := fun s => s;
     Loader.uuid4 := counter_uuid4;
     Loader.request_refused := unknown_url_type;
     Loader.urlopen := fun _ _ => Http.Response "Success" |}.


(** An endpoint that answers the first request with HTTP 500. *)
Definition first_fails : Loader.env :=
  {| Loader.json_dumps := toy_dumps;
     Loader.b64encode := fun s => s;
     Loader.uuid4 := counter_uuid4;
     Loader.request_refused := unknown_url_type;
     Loader.urlopen := fun n _ =>
       if (n =? 0)%nat then Http.RaiseHTTPError 500 "Internal Server Error"
       else Http.Response "Success" |}.

Definition demo_loader : Loader.DorisStreamLoader :=
  Loader.init "http://doris-fe:8030/" (PyStr "root") PyNone 30 "scrapy" None.



Definition quote (n : nat) : item :=
  [("title", PyStr (pretty n)); ("url", PyStr "http://quotes.toscrape.com/");
   ("description", PyStr "Albert Einstein")].

Definition anonymous_quote : item :=
  [("title", PyStr "To be"); ("url", PyStr "http://quotes.toscrape.com/");
   ("description", PyNone)].

Definition quotes (n : nat) : list item := map quote (seq 0 n).

(** A spider without the mixin: no attributes, no [get_doris_target]. *)
Definition plain_spider : Spiders.Spider :=
  {| Spiders.name := "plain";
     Spiders.doris_database := None;
     Spiders.doris_table := None;
     Spiders.get_doris_target := None |}.

(** One record waiting in the buffer of [(demo, quotes)], batch size 50. *)
Definition one_buffered : Pipeline.state :=
  Pipeline.buffered ("demo", "quotes") (quote 0)
    (Pipeline.start (Pipeline.init demo_loader "demo" "items" 50)).

(** A second destination with a record waiting, behind the first. *)
Definition two_buffered : Pipeline.state :=
  Pipeline.buffered ("demo", "items") (quote 1) one_buffered.

(** A spider that declares a database but no table. *)
Definition half_configured_spider : Spiders.Spider :=
  {| Spiders.name := "half";
     Spiders.doris_database := Some (PyStr "analytics");
     Spiders.doris_table := None;
     Spiders.get_doris_target := None |}.

(** Two stores, with a codec that takes the bytes as they are. *)
Definition empty_store : Middleware.env :=
  {| Middleware.srandmember := fun _ _ => Middleware.Nil;
     Middleware.decode := fun _ b => Return b |}.

Definition stocked_store : Middleware.env :=
  {| Middleware.srandmember := fun _ _ => Middleware.ReplyBytes "http://10.0.0.7:3128";
     Middleware.decode := fun _ b => Return b |}.

Definition middleware (fallback : value) : Middleware.RedisProxyMiddleware :=
  {| Middleware.redis_url := "redis://localhost:6379/0";
     Middleware.proxy_key := "scrapy:proxies";
     Middleware.encoding := "utf-8";
     Middleware.fallback_proxy := fallback;
     Middleware.client := Some "redis://localhost:6379/0" |}.

Definition fresh_request : Middleware.state :=
  {| Middleware.request := {| Middleware.meta := ∅ |};
     Middleware.queries := [];
     Middleware.logs := [] |}.


(** The project's [settings.py] with Doris switched on and a host given. *)
Definition project_settings : Crawler.Settings :=
  {| Crawler.DORIS_ENABLED := true;
     Crawler.DORIS_HOST := PyStr "http://doris-fe:8030/";
     Crawler.DORIS_USER := PyStr "root";
     Crawler.DORIS_PASSWORD := PyStr "";
     Crawler.DORIS_TIMEOUT := 30;
     Crawler.DORIS_LABEL_PREFIX := "scrapy";
     Crawler.DORIS_STREAM_LOAD_HEADERS := [];
     Crawler.DORIS_DEFAULT_DATABASE := PyStr "demo";
     Crawler.DORIS_DEFAULT_TABLE := PyStr "items";
     Crawler.DORIS_BATCH_SIZE := 50;
     Crawler.REDIS_PROXY_URL := PyStr "redis://localhost:6379/0";
     Crawler.REDIS_PROXY_KEY := PyStr "scrapy:proxies";
     Crawler.REDIS_PROXY_ENCODING := "utf-8";
     Crawler.REDIS_PROXY_FALLBACK := PyNone |}.

(** A [redis] package whose [from_url] always yields a client. *)
Definition redis_installed : Crawler.redis_module :=
  Some (fun redis_url => Some redis_url).


(** A spider that only brings its own [get_doris_target]. *)
Definition routing_spider : Spiders.Spider :=
  {| Spiders.name := "routing";
     Spiders.doris_database := None;
     Spiders.doris_table := None;
     Spiders.get_doris_target :=
       Some (fun it => Some (PyStr "demo", Spiders.or_else (item_get it "title") "untitled")) |}.

(** A store holding bytes that the codec drops entirely. *)
Definition garbled_store : Middleware.env :=
  {| Middleware.srandmember := fun _ _ => Middleware.ReplyBytes "??";
     Middleware.decode := fun _ _ => Return "" |}.

(** A store holding bytes, read by a middleware whose encoding does not
    exist. *)
Definition unknown_codec_store : Middleware.env :=
  {| Middleware.srandmember := fun _ _ => Middleware.ReplyBytes "http://10.0.0.7:3128";
     Middleware.decode := fun encoding b =>
       if String.eqb encoding "utf-8" then Return b
       else Raise (LookupError ("unknown encoding: " +:+ encoding)) |}.

Definition misconfigured_middleware : Middleware.RedisProxyMiddleware :=
  {| Middleware.redis_url := "redis://localhost:6379/0";
     Middleware.proxy_key := "scrapy:proxies";
     Middleware.encoding := "utf8x";
     Middleware.fallback_proxy := PyStr "http://fallback:3128";
     Middleware.client := Some "redis://localhost:6379/0" |}.


End Fixtures.


(** * Properties *)

Import Spiders Pipeline Tiers Observe Fixtures.

(** ** Text helpers *)

Example capitalize_label : capitalize "label" = "Label".
Proof. reflexivity. Qed.

Example capitalize_content_type : capitalize "Content-Type" = "Content-type".
Proof. reflexivity. Qed.

Example rstrip_slash_host : rstrip_slash "http://fe:8030//" = "http://fe:8030".
Proof. reflexivity. Qed.

Lemma truthy_false_cases v : truthy v = false -> v = PyNone \/ v = PyStr "".
Proof.
  destruct v as [|s]; simpl; [now left|].
  destruct (String.eqb_spec s ""); [subst; now right | discriminate].
Qed.

Lemma truthy_str v : truthy v = true -> v = PyStr (str_of_value v).
Proof. destruct v; simpl; [discriminate | reflexivity]. Qed.

(** ** Destination resolution *)

Example resolve_plain_spider :
  _resolve_target (init demo_loader "demo" "items" 50) plain_spider (quote 0)
  = Return ("demo", "items").
Proof. reflexivity. Qed.

Example resolve_quotes_author :
  _resolve_target (init demo_loader "demo" "items" 50) QuotesSpider (quote 0)
  = Return ("demo", "quotes").
Proof. reflexivity. Qed.

(** A spider that carries both attributes gets exactly those, whatever its
    [get_doris_target] says. *)
Lemma resolve_target_attributes_win p spider it d t :
  doris_database spider = Some d -> doris_table spider = Some t ->
  _resolve_target p spider it
  = if negb (truthy d) || negb (truthy t)
    then Raise (ValueError unresolved_message)
    else Return (str_of_value d, str_of_value t).
Proof.
  intros Hd Ht. unfold _resolve_target. rewrite Hd, Ht.
  destruct (get_doris_target spider) as [g|]; [destruct (g it) as [[a b]|]|];
    reflexivity.
Qed.

(** C3, at the failing input.  For an item without an author the example
    spider's [get_doris_target] selects [quotes_unknown_author], a non-empty
    pair, and the specified order would resolve to it; [_resolve_target]
    returns the spider's static attributes instead. *)
Theorem resolve_target_discards_override :
  let p := init demo_loader "demo" "items" 50 in
  override_pair QuotesSpider anonymous_quote
    = Some (PyStr "demo", PyStr "quotes_unknown_author")
  /\ first_nonempty p QuotesSpider anonymous_quote
    = Some ("demo", "quotes_unknown_author")
  /\ _resolve_target p QuotesSpider anonymous_quote = Return ("demo", "quotes").
Proof. repeat split. Qed.

(** The same defect seen from the other side: a [DorisSpider] that leaves
    the mixin's attributes at [None] never falls through to the pipeline
    defaults. *)
Example resolve_target_mixin_none :
  let p := init demo_loader "demo" "items" 50 in
  first_nonempty p (DorisSpider "bare" PyNone PyNone) (quote 0)
    = Some ("demo", "items")
  /\ _resolve_target p (DorisSpider "bare" PyNone PyNone) (quote 0)
    = Raise (ValueError unresolved_message).
Proof. repeat split. Qed.

(** ** Unresolved destinations *)

Lemma process_item_unresolved E it spider st e :
  _resolve_target (self st) spider it = Raise e ->
  process_item E it spider st = (st, Raise e).
Proof. intros H. unfold process_item, bind. now rewrite H. Qed.

(** C6, refuted as stated.  The spider offers a database only and the
    pipeline a table only, so no tier on its own produces a non-empty pair;
    [_resolve_target] combines the two halves, raises nothing, and the
    record is buffered. *)
Lemma resolve_target_mixes_tiers :
  let p := init demo_loader "" "events" 50 in
  first_nonempty p half_configured_spider (quote 0) = None
  /\ _resolve_target p half_configured_spider (quote 0)
     = Return ("analytics", "events")
  /\ process_item healthy (quote 0) half_configured_spider (start p)
     = (with_buffers (fun _ => [(("analytics", "events"), [quote 0])]) (start p),
        Return (quote 0)).
Proof. repeat split. Qed.

(** C6, as amended.  When no tier offers a non-empty database name, or no
    tier offers a non-empty table name, [_resolve_target] raises
    [ValueError], and [process_item] raises it before anything is buffered
    or sent. *)
Theorem resolve_target_raises_when_unresolved p spider it :
  all_empty (database_offers p spider it) = true
  \/ all_empty (table_offers p spider it) = true ->
  _resolve_target p spider it = Raise (ValueError unresolved_message)
  /\ forall E st, self st = p ->
       process_item E it spider st = (st, Raise (ValueError unresolved_message)).
Proof.
  intros H.
  assert (R : _resolve_target p spider it = Raise (ValueError unresolved_message)).
  { unfold _resolve_target.
    unfold all_empty, database_offers, table_offers, override_pair, global_pair in H.
    destruct (get_doris_target spider) as [g|]; [destruct (g it) as [[a b]|]|];
      destruct (doris_database spider) as [d|], (doris_table spider) as [t|];
      simpl in *; rewrite ?andb_true_r, ?andb_true_iff, ?negb_true_iff in H;
      destruct H as [H|H]; destruct_and?;
      repeat match goal with
             | Hx : truthy ?v = false |- context [truthy ?v] => rewrite Hx
             | Hx : negb (String.eqb ?v "") = false |- context [String.eqb ?v ""] =>
                 rewrite Hx
             end;
      simpl; rewrite ?orb_true_r; reflexivity. }
  split; [exact R|].
  intros E st <-. now apply process_item_unresolved.
Qed.

(** The specification's scenario: no override, no static attributes, no
    defaults. *)
Lemma resolve_target_raises_when_unresolved_witness :
  (all_empty (database_offers (init demo_loader "" "" 50) plain_spider (quote 0)) = true
   \/ all_empty (table_offers (init demo_loader "" "" 50) plain_spider (quote 0)) = true)
  /\ _resolve_target (init demo_loader "" "" 50) plain_spider (quote 0)
     = Raise (ValueError unresolved_message).
Proof.
  split; [left; reflexivity|].
  apply (resolve_target_raises_when_unresolved
           (init demo_loader "" "" 50) plain_spider (quote 0)).
  left; reflexivity.
Defined.

(** ** Proxy selection *)

Example process_request_assigns_store_proxy :
  Middleware.meta_get "proxy"
    (Middleware.request
       (fst (Middleware.process_request stocked_store (middleware PyNone) fresh_request)))
  = PyStr "http://10.0.0.7:3128".
Proof. vm_compute. reflexivity. Qed.

Example process_request_uses_fallback :
  Middleware.meta_get "proxy"
    (Middleware.request
       (fst (Middleware.process_request empty_store
               (middleware (PyStr "http://fallback:3128")) fresh_request)))
  = PyStr "http://fallback:3128".
Proof. vm_compute. reflexivity. Qed.

Lemma process_request_keeps_assignment E self st :
  truthy (Middleware.meta_get "proxy" (Middleware.request st)) = true ->
  Middleware.process_request E self st = (st, Return tt).
Proof.
  intros H. unfold Middleware.process_request, bind, gets, ret. now rewrite H.
Qed.




(** C8.  A request without a proxy, a store whose random-member query
    yields no member, and no fallback configured: [process_request] returns
    normally and leaves the request as it was, so it still has no proxy; a
    [meta] without the [proxy] key still has none. *)
Theorem process_request_no_proxy_available E self st :
  truthy (Middleware.meta_get "proxy" (Middleware.request st)) = false ->
  Middleware.srandmember E (length (Middleware.queries st)) (Middleware.proxy_key self)
    = Middleware.Nil ->
  truthy (Middleware.fallback_proxy self) = false ->
  let st' := fst (Middleware.process_request E self st) in
  snd (Middleware.process_request E self st) = Return tt
  /\ Middleware.request st' = Middleware.request st
  /\ truthy (Middleware.meta_get "proxy" (Middleware.request st')) = false
  /\ (Middleware.meta (Middleware.request st) !! "proxy" = None ->
      Middleware.meta (Middleware.request st') !! "proxy" = None).
Proof.
  intros Hcur Hnil Hfb.
  assert (Hreq : Middleware.request (fst (Middleware.process_request E self st))
                 = Middleware.request st
                 /\ snd (Middleware.process_request E self st) = Return tt).
  { unfold Middleware.process_request, Middleware._get_proxy, Middleware.query,
      Middleware.log, bind, gets, ret, modify.
    rewrite Hcur. destruct (Middleware.client self); simpl.
    - rewrite Hnil. simpl. rewrite Hfb. simpl. now split.
    - rewrite Hfb. simpl. now split. }
  destruct Hreq as [Hreq Hret]. simpl.
  rewrite Hreq. repeat split; auto.
Qed.

Lemma process_request_no_proxy_available_witness :
  Middleware.meta
    (Middleware.request
       (fst (Middleware.process_request empty_store (middleware PyNone) fresh_request)))
    !! "proxy" = None.
Proof.
  apply (process_request_no_proxy_available empty_store (middleware PyNone)
           fresh_request); reflexivity.
Defined.

(** ** The loader: one call, one label *)


Lemma load_refused E ld d t rs w msg :
  Loader.request_refused E (Loader.request_url ld d t) = Some msg ->
  Loader.load E ld d t rs w
  = ({| Loader.uuid_draws := Loader.uuid_draws w;
        Loader.sent := Loader.sent w
                       ++ [Loader.Call d t rs None (Http.RaiseValueError msg)];
        Loader.logs := Loader.logs w |},
     Raise (ValueError msg)).
Proof. intros Hurl. unfold Loader.load. now rewrite Hurl. Qed.

Lemma add_extra_headers_lookup hs r (h : string) :
  Forall (fun hv => capitalize (fst hv) <> h) hs ->
  Http.headers (Loader.add_extra_headers hs r) !! h = Http.headers r !! h.
Proof.
  revert r. induction hs as [|[k v] hs IH]; intros r Hall; [reflexivity|].
  inversion Hall as [|? ? Hk Hrest]; subst. simpl in *.
  unfold Loader.add_extra_headers in *. simpl. rewrite IH by assumption.
  simpl. now rewrite lookup_insert_ne.
Qed.



Example two_loads_distinct_labels :
  Loader.label_of
    <$> Loader.sent (Loader.load_all healthy demo_loader
                       [("demo", "quotes", [quote 0]); ("demo", "quotes", [quote 1])]
                       Loader.no_traffic)
  = [Some "scrapy-tok0"; Some "scrapy-tok1"].
Proof. vm_compute. reflexivity. Qed.




(** ** Dictionaries *)

Section DictFacts.
Context {K V : Type} `{EqDecision K}.
Implicit Types (d : list (K * V)) (k : K).

Lemma get_setdefault_eq k v d :
  Dict.get k (Dict.setdefault k v d) = Some (default v (Dict.get k d)).
Proof.
  induction d as [|[k' v'] d IH]; simpl.
  - now rewrite decide_True.
  - destruct (decide (k' = k)); simpl.
    + now rewrite decide_True.
    + now rewrite decide_False.
Qed.

Lemma get_setdefault_ne k k' v d :
  k <> k' -> Dict.get k' (Dict.setdefault k v d) = Dict.get k' d.
Proof.
  intros Hne. induction d as [|[k0 v0] d IH]; simpl.
  - now rewrite decide_False.
  - destruct (decide (k0 = k)); simpl; [reflexivity|].
    destruct (decide (k0 = k')); [reflexivity | exact IH].
Qed.

Lemma get_update_eq k f d :
  Dict.get k (Dict.update k f d) = f <$> Dict.get k d.
Proof.
  induction d as [|[k' v'] d IH]; simpl; [reflexivity|].
  destruct (decide (k' = k)); simpl.
  - now rewrite decide_True.
  - now rewrite decide_False.
Qed.

Lemma get_update_ne k k' f d :
  k <> k' -> Dict.get k' (Dict.update k f d) = Dict.get k' d.
Proof.
  intros Hne. induction d as [|[k0 v0] d IH]; simpl; [reflexivity|].
  destruct (decide (k0 = k)); simpl.
  - subst. now rewrite !decide_False.
  - destruct (decide (k0 = k')); [reflexivity | exact IH].
Qed.

Lemma get_in_keys k d : k ∈ Dict.keys d -> is_Some (Dict.get k d).
Proof.
  induction d as [|[k' v'] d IH]; simpl.
  - intros Hin. inversion Hin.
  - intros Hin. destruct (decide (k' = k)); [eauto|].
    apply IH. apply elem_of_cons in Hin as [->|Hin]; [congruence | exact Hin].
Qed.

Lemma get_not_in_keys k d : k ∉ Dict.keys d -> Dict.get k d = None.
Proof.
  induction d as [|[k' v'] d IH]; simpl; [reflexivity|].
  intros Hin. apply not_elem_of_cons in Hin as [Hne Hin].
  rewrite decide_False by congruence. now apply IH.
Qed.

End DictFacts.

(** ** Flushing one buffer *)

Lemma buffer_of_with_buffers k f st :
  buffer_of k (with_buffers f st) = default [] (Dict.get k (f (buffers (self st)))).
Proof. reflexivity. Qed.

Lemma flush_empty E d t st :
  buffer_of (d, t) st = [] -> _flush E d t st = (st, Return tt).
Proof. intros H. unfold _flush, bind, gets. now rewrite H. Qed.

Lemma next_call_records E d t st :
  Loader.c_records (next_call E d t st) = buffer_of (d, t) st.
Proof. unfold next_call. now destruct (Loader.request_refused E _). Qed.

Lemma next_call_key E d t st : key_of (next_call E d t st) = (d, t).
Proof. unfold next_call. now destruct (Loader.request_refused E _). Qed.

(** What a flush of a non-empty buffer does, by the way its [load] call
    ends. *)
Lemma flush_nonempty E d t st :
  buffer_of (d, t) st <> [] ->
  let c := next_call E d t st in
  exists w,
    Loader.sent w = Loader.sent (net st) ++ [c]
    /\ Loader.uuid_draws w
       = match Loader.c_request c with
         | Some _ => S (Loader.uuid_draws (net st))
         | None => Loader.uuid_draws (net st)
         end
    /\ if Http.ok (Loader.c_outcome c)
       then _flush E d t st
            = ({| self := self (with_buffers (Dict.update (d, t) (fun _ => [])) st);
                  net := w |}, Return tt)
       else exists e, _flush E d t st = ({| self := self st; net := w |}, Raise e).
Proof.
  intros Hne. unfold next_call. unfold _flush, bind, gets.
  destruct (buffer_of (d, t) st) as [|r rs] eqn:Hb; [congruence|].
  unfold lift_net, Loader.load, Loader.refuse, Loader._generate_label,
    Loader.perform, Loader.log, bind, modify, raise, with_buffers. simpl.
  destruct (Loader.request_refused E _) as [msg|]; simpl.
  - eexists (Loader.World _ _ _); simpl; split_and!; try reflexivity.
    eexists; reflexivity.
  - destruct (Loader.urlopen E _ _) eqn:Ho; simpl;
      eexists (Loader.World _ _ _); simpl; split_and!; try reflexivity;
      eexists; reflexivity.
Qed.

(** A failed flush raises the exception its [load] call ended with. *)
Lemma flush_raises E d t st :
  buffer_of (d, t) st <> [] ->
  Http.ok (Loader.c_outcome (next_call E d t st)) = false ->
  snd (_flush E d t st) = raised_for (Loader.c_outcome (next_call E d t st)).
Proof.
  intros Hne. unfold next_call. unfold _flush, bind, gets.
  destruct (buffer_of (d, t) st) as [|r rs] eqn:Hb; [congruence|].
  unfold lift_net, Loader.load, Loader.refuse, Loader._generate_label,
    Loader.perform, Loader.log, bind, modify, raise, with_buffers. simpl.
  destruct (Loader.request_refused E _) as [msg|]; simpl.
  - intros _. reflexivity.
  - destruct (Loader.urlopen E _ _) eqn:Ho; simpl; intros Hok;
      try discriminate; reflexivity.
Qed.

Lemma buffer_of_cleared d t st :
  buffer_of (d, t) (with_buffers (Dict.update (d, t) (fun _ => [])) st) = [].
Proof.
  rewrite buffer_of_with_buffers, get_update_eq.
  destruct (Dict.get _ _); reflexivity.
Qed.

Lemma buffer_of_self k st w :
  buffer_of k {| self := self st; net := w |} = buffer_of k st.
Proof. reflexivity. Qed.

Example flush_one_buffered_ok :
  let st' := fst (_flush healthy "demo" "quotes" one_buffered) in
  snd (_flush healthy "demo" "quotes" one_buffered) = Return tt
  /\ buffer_of ("demo", "quotes") st' = []
  /\ Loader.c_records <$> Loader.sent (net st') = [[quote 0]].
Proof. vm_compute. repeat split. Qed.

(** C1, refuted as stated.  The endpoint answers HTTP 500: [_flush] raises
    out of [load], [buffer.clear()] is never reached, and the record is still
    in the buffer; [close_spider] then sends the same record again. *)
Lemma failed_flush_keeps_buffer :
  let st' := fst (_flush first_fails "demo" "quotes" one_buffered) in
  buffer_of ("demo", "quotes") one_buffered = [quote 0]
  /\ snd (_flush first_fails "demo" "quotes" one_buffered)
     = Raise (HTTPError 500 "Internal Server Error")
  /\ buffer_of ("demo", "quotes") st' = [quote 0]
  /\ Loader.c_records
       <$> Loader.sent (net (fst (close_spider first_fails QuotesSpider st')))
     = [[quote 0]; [quote 0]].
Proof. vm_compute. repeat split. Qed.

(** C1, as amended.  A flush of a non-empty buffer hands the whole buffer to
    exactly one [load] call.  When that call succeeds the flush returns and
    the buffer is empty; when it fails the flush raises and the buffer holds
    the same records as before. *)
Theorem flush_drains_when_loaded E d t st :
  buffer_of (d, t) st <> [] ->
  let c := next_call E d t st in
  let st' := fst (_flush E d t st) in
  Loader.sent (net st') = Loader.sent (net st) ++ [c]
  /\ Loader.c_records c = buffer_of (d, t) st
  /\ if Http.ok (Loader.c_outcome c)
     then snd (_flush E d t st) = Return tt /\ buffer_of (d, t) st' = []
     else returned (snd (_flush E d t st)) = false
          /\ buffers (self st') = buffers (self st).
Proof.
  intros Hne c st'. subst st'.
  destruct (flush_nonempty E d t st Hne) as (w & Hsent & _ & Hcase).
  fold c in Hsent, Hcase.
  pose proof (next_call_records E d t st) as Hrec. fold c in Hrec.
  destruct (Http.ok (Loader.c_outcome c)).
  - rewrite Hcase. cbn [fst snd net]. split_and!; auto.
    apply buffer_of_cleared.
  - destruct Hcase as [e Hcase]. rewrite Hcase. cbn [fst snd net self].
    split_and!; auto.
Qed.

Lemma flush_drains_when_loaded_witness :
  buffer_of ("demo", "quotes") (fst (_flush healthy "demo" "quotes" one_buffered)) = [].
Proof.
  apply (flush_drains_when_loaded healthy "demo" "quotes" one_buffered).
  vm_compute. discriminate.
Defined.

(** ** Submitting one record *)

Lemma buffer_of_buffered_eq k it st :
  buffer_of k (buffered k it st) = buffer_of k st ++ [asdict it].
Proof.
  unfold buffered. rewrite !buffer_of_with_buffers. simpl.
  rewrite get_update_eq, get_setdefault_eq. unfold buffer_of.
  destruct (Dict.get k (buffers (self st))); reflexivity.
Qed.

Lemma get_buffered_ne k k' it st :
  k <> k' ->
  Dict.get k' (buffers (self (buffered k it st))) = Dict.get k' (buffers (self st)).
Proof.
  intros Hne. unfold buffered, with_buffers. simpl.
  now rewrite get_update_ne, get_setdefault_ne.
Qed.

Lemma buffer_of_buffered_ne k k' it st :
  k <> k' -> buffer_of k' (buffered k it st) = buffer_of k' st.
Proof. intros Hne. unfold buffer_of. now rewrite get_buffered_ne. Qed.

(** [process_item] on a record that resolves to [k]: buffer it, then flush
    if the buffer has reached the batch size. *)
Lemma process_item_resolved E it spider st k :
  _resolve_target (self st) spider it = Return k ->
  process_item E it spider st
  = if batch_size (self st) <=? Z.of_nat (length (buffer_of k (buffered k it st)))
    then match _flush E (fst k) (snd k) (buffered k it st) with
         | (st', Return _) => (st', Return it)
         | (st', Raise e) => (st', Raise e)
         end
    else (buffered k it st, Return it).
Proof.
  intros H. unfold process_item, bind. rewrite H. destruct k as [d t].
  unfold modify, gets, ret. cbn [fst snd].
  change (with_buffers _ (with_buffers _ st)) with (buffered (d, t) it st).
  change (batch_size (self (buffered (d, t) it st))) with (batch_size (self st)).
  destruct (_ <=? _); [|reflexivity].
  destruct (_flush E d t (buffered (d, t) it st)) as [st' [[]|e]]; reflexivity.
Qed.

(** A flush touches no entry of the dict but the one it is given. *)
Lemma flush_frame E d t st k' :
  k' <> (d, t) ->
  Dict.get k' (buffers (self (fst (_flush E d t st))))
  = Dict.get k' (buffers (self st)).
Proof.
  intros Hne. destruct (buffer_of (d, t) st) as [|r rs] eqn:Hb.
  - now rewrite flush_empty.
  - destruct (flush_nonempty E d t st) as (w & _ & _ & Hcase); [congruence|].
    destruct (Http.ok _).
    + rewrite Hcase. cbn [fst self with_buffers buffers].
      now rewrite get_update_ne.
    + destruct Hcase as [e ->]. reflexivity.
Qed.

(** C10.  A [process_item] whose record resolves to destination [k], and a
    [_flush] of [k], leave the dict entry of every other destination as it
    was: the same buffer with the same records in the same order, or still
    no buffer at all.  This holds whether or not the load succeeds. *)
Theorem other_buffers_untouched E it spider st k k' :
  k' <> k ->
  (_resolve_target (self st) spider it = Return k ->
   Dict.get k' (buffers (self (fst (process_item E it spider st))))
   = Dict.get k' (buffers (self st)))
  /\ Dict.get k' (buffers (self (fst (_flush E (fst k) (snd k) st))))
     = Dict.get k' (buffers (self st)).
Proof.
  intros Hne. split.
  - intros Hres. rewrite (process_item_resolved E it spider st k Hres).
    assert (Hfl := flush_frame E (fst k) (snd k) (buffered k it st) k').
    destruct (_ <=? _).
    + destruct (_flush E (fst k) (snd k) (buffered k it st)) as [st' [[]|e]];
        cbn [fst] in *; (rewrite Hfl by (destruct k; exact Hne));
        apply get_buffered_ne; congruence.
    + cbn [fst]. apply get_buffered_ne; congruence.
  - apply flush_frame. destruct k; exact Hne.
Qed.

Lemma other_buffers_untouched_witness :
  Dict.get ("demo", "quotes")
    (buffers (self (fst (process_item healthy (quote 1) plain_spider one_buffered))))
  = Some [quote 0].
Proof.
  assert (Hne : ("demo", "quotes") <> ("demo", "items")) by discriminate.
  destruct (other_buffers_untouched healthy (quote 1) plain_spider one_buffered
              ("demo", "items") ("demo", "quotes") Hne) as [Hsubmit _].
  rewrite Hsubmit; reflexivity.
Defined.

(** ** What a flush sends and what it leaves behind *)

Lemma same_config_refl p : same_config p p.
Proof. now repeat split. Qed.

Lemma same_config_trans p q r : same_config p q -> same_config q r -> same_config p r.
Proof. unfold same_config. intros (?&?&?&?) (?&?&?&?). split_and!; congruence. Qed.

Lemma resolve_same_config p q spider it :
  same_config p q -> _resolve_target q spider it = _resolve_target p spider it.
Proof. intros (_ & Hd & Ht & _). unfold _resolve_target. now rewrite Hd, Ht. Qed.

Lemma flush_sent E d t st :
  Loader.sent (net (fst (_flush E d t st)))
  = Loader.sent (net st) ++ flush_calls E d t st.
Proof.
  unfold flush_calls. destruct (buffer_of (d, t) st) as [|r rs] eqn:Hb.
  - rewrite flush_empty by assumption. now rewrite app_nil_r.
  - destruct (flush_nonempty E d t st) as (w & Hsent & _ & Hcase); [congruence|].
    destruct (Http.ok _).
    + now rewrite Hcase.
    + destruct Hcase as [e ->]. exact Hsent.
Qed.

Lemma flush_config E d t st : same_config (self st) (self (fst (_flush E d t st))).
Proof.
  destruct (buffer_of (d, t) st) as [|r rs] eqn:Hb.
  - rewrite flush_empty by assumption. apply same_config_refl.
  - destruct (flush_nonempty E d t st) as (w & _ & _ & Hcase); [congruence|].
    destruct (Http.ok _).
    + rewrite Hcase. now repeat split.
    + destruct Hcase as [e ->]. apply same_config_refl.
Qed.

Lemma flush_ok E d t st :
  all_ok (flush_calls E d t st) ->
  snd (_flush E d t st) = Return tt
  /\ forall k, buffer_of k (fst (_flush E d t st))
               = if decide (k = (d, t)) then [] else buffer_of k st.
Proof.
  unfold flush_calls, all_ok. intros Hok.
  destruct (buffer_of (d, t) st) as [|r rs] eqn:Hb.
  - rewrite flush_empty by assumption. split; [reflexivity|].
    intros k. cbn [fst]. case_decide; congruence.
  - destruct (flush_nonempty E d t st) as (w & _ & _ & Hcase); [congruence|].
    rewrite Forall_singleton in Hok.
    rewrite Hok in Hcase. rewrite Hcase.
    split; [reflexivity|]. intros k. cbn [fst]. case_decide as Hk.
    + subst k. apply buffer_of_cleared.
    + unfold buffer_of. cbn [self with_buffers buffers].
      rewrite get_update_ne by congruence. reflexivity.
Qed.

Lemma flush_failed E d t st :
  ~ all_ok (flush_calls E d t st) ->
  exists e, snd (_flush E d t st) = Raise e
            /\ buffers (self (fst (_flush E d t st))) = buffers (self st).
Proof.
  unfold flush_calls, all_ok. intros Hko.
  destruct (buffer_of (d, t) st) as [|r rs] eqn:Hb.
  - exfalso. apply Hko. constructor.
  - destruct (flush_nonempty E d t st) as (w & _ & _ & Hcase); [congruence|].
    destruct (Http.ok _) eqn:Ho.
    + exfalso. apply Hko. now rewrite Forall_singleton.
    + destruct Hcase as [e ->]. eauto.
Qed.

Lemma batches_for_app k cs1 cs2 :
  batches_for k (cs1 ++ cs2) = batches_for k cs1 ++ batches_for k cs2.
Proof. unfold batches_for. now rewrite filter_app, fmap_app. Qed.

Lemma batches_for_flush_calls E d t st k :
  concat (batches_for k (flush_calls E d t st))
  = if decide (k = (d, t)) then buffer_of (d, t) st else [].
Proof.
  unfold flush_calls, batches_for.
  destruct (buffer_of (d, t) st) as [|r rs] eqn:Hb.
  - now case_decide.
  - rewrite filter_cons, filter_nil.
    rewrite (next_call_key E d t st).
    case_decide; case_decide; try congruence; simpl.
    + rewrite next_call_records. now rewrite Hb, app_nil_r.
    + reflexivity.
Qed.

(** A successful flush moves records from the buffer to the wire and
    changes nothing else. *)
Lemma flush_preserves_total E d t st k :
  all_ok (flush_calls E d t st) ->
  concat (batches_for k (Loader.sent (net (fst (_flush E d t st)))))
    ++ buffer_of k (fst (_flush E d t st))
  = concat (batches_for k (Loader.sent (net st))) ++ buffer_of k st.
Proof.
  intros Hok. destruct (flush_ok E d t st Hok) as [_ Hbuf].
  rewrite flush_sent, batches_for_app, concat_app, Hbuf, batches_for_flush_calls.
  rewrite <- app_assoc. case_decide; [subst k|]; now rewrite ?app_nil_r.
Qed.

Lemma batches_for_flush E d t st k :
  batches_for k (flush_calls E d t st)
  = if decide (k = (d, t)) then batch_of (buffer_of (d, t) st) else [].
Proof.
  unfold flush_calls, batches_for.
  destruct (buffer_of (d, t) st) as [|r rs] eqn:Hb.
  - now case_decide.
  - rewrite filter_cons, filter_nil.
    rewrite (next_call_key E d t st).
    case_decide; case_decide; try congruence; simpl; [|reflexivity].
    rewrite next_call_records. now rewrite Hb.
Qed.

(** ** Shutdown *)

Lemma close_entry_flush E e st :
  close_entry E e st = _flush E (fst (fst e)) (snd (fst e)) st.
Proof.
  unfold close_entry, bind, gets.
  destruct (buffer_of (fst (fst e), snd (fst e)) st) eqn:Hb; [|reflexivity].
  now rewrite flush_empty.
Qed.

Lemma key_eta (k : key) : (fst k, snd k) = k.
Proof. now destruct k. Qed.

(** The loop of [close_spider]: either every load succeeds and each listed
    buffer is sent once and ends up empty, or the loop ends with the first
    failed load. *)
Lemma close_loop_spec E es st :
  let st' := fst (for_each es (close_entry E) st) in
  exists calls,
    Loader.sent (net st') = Loader.sent (net st) ++ calls
    /\ same_config (self st) (self st')
    /\ ((all_ok calls
         /\ snd (for_each es (close_entry E) st) = Return tt
         /\ (forall k, buffer_of k st'
                       = if decide (k ∈ Dict.keys es) then [] else buffer_of k st)
         /\ (forall k, batches_for k calls
                       = if decide (k ∈ Dict.keys es) then batch_of (buffer_of k st)
                         else []))
        \/ (exists cs c e,
              calls = cs ++ [c]
              /\ all_ok cs
              /\ Http.ok (Loader.c_outcome c) = false
              /\ snd (for_each es (close_entry E) st) = Raise e
              /\ buffer_of (key_of c) st' = Loader.c_records c
              /\ Loader.c_records c <> [])).
Proof.
  revert st. induction es as [|e es IH]; intros st; cbn zeta.
  - exists []. cbn [for_each ret fst snd]. rewrite app_nil_r.
    split_and!; [reflexivity|apply same_config_refl|].
    left. split_and!; [constructor|reflexivity| |].
    + intros k. rewrite decide_False; [reflexivity | apply not_elem_of_nil].
    + intros k. rewrite decide_False; [reflexivity | apply not_elem_of_nil].
  - cbn [for_each]. unfold bind at 1 2 3 4 5 6. rewrite close_entry_flush.
    set (d := fst (fst e)). set (t := snd (fst e)).
    assert (Hkey : fst e = (d, t)) by (subst d t; now rewrite key_eta).
    pose proof (flush_sent E d t st) as Hsent.
    pose proof (flush_config E d t st) as Hcfg.
    destruct (decide (all_ok (flush_calls E d t st))) as [Hok|Hko].
    + destruct (flush_ok E d t st Hok) as [Hret Hbuf].
      destruct (_flush E d t st) as [st1 r1] eqn:Hfl. cbn [fst snd] in *. subst r1.
      destruct (IH st1) as (calls & Hs & Hc & Hcase).
      exists (flush_calls E d t st ++ calls).
      split_and!.
      * rewrite Hs, Hsent. now rewrite app_assoc.
      * eapply same_config_trans; eassumption.
      * destruct Hcase as [(Hall & Hr & Hb & Hbat) | (cs & c & e' & Hcalls & Hcs & Hc' & Hr & Hkeep & Hne)].
        -- left. split_and!.
           ++ apply Forall_app; split; assumption.
           ++ exact Hr.
           ++ intros k. rewrite Hb, Hbuf. simpl. rewrite Hkey.
              destruct (decide (k = (d, t))) as [Hk|Hk],
                (decide (k ∈ Dict.keys es)) as [Hin|Hin].
              ** now rewrite decide_True by (apply elem_of_cons; auto).
              ** now rewrite decide_True by (apply elem_of_cons; auto).
              ** now rewrite decide_True by (apply elem_of_cons; auto).
              ** now rewrite decide_False by (rewrite elem_of_cons; tauto).
           ++ intros k. rewrite batches_for_app, batches_for_flush, Hbat, Hbuf.
              simpl. rewrite Hkey.
              destruct (decide (k = (d, t))) as [Hk|Hk],
                (decide (k ∈ Dict.keys es)) as [Hin|Hin].
              ** subst k. rewrite decide_True by (apply elem_of_cons; auto).
                 now rewrite app_nil_r.
              ** rewrite decide_True by (apply elem_of_cons; auto).
                 subst k. now rewrite app_nil_r.
              ** now rewrite decide_True by (apply elem_of_cons; auto).
              ** now rewrite decide_False by (rewrite elem_of_cons; tauto).
        -- right. exists (flush_calls E d t st ++ cs), c, e'. split_and!; auto.
           ++ rewrite Hcalls. now rewrite app_assoc.
           ++ apply Forall_app; split; assumption.
    + destruct (flush_failed E d t st Hko) as (e' & Hraise & Hbufs).
      destruct (_flush E d t st) as [st1 r1] eqn:Hfl. cbn [fst snd] in *. subst r1.
      cbn [fst snd].
      exists (flush_calls E d t st). split_and!; [exact Hsent | exact Hcfg |].
      right. unfold flush_calls in *.
      destruct (buffer_of (d, t) st) as [|r rs] eqn:Hb; [exfalso; apply Hko; constructor|].
      exists [], (next_call E d t st), e'. split_and!; auto.
      * constructor.
      * destruct (Http.ok (Loader.c_outcome (next_call E d t st))) eqn:Ho; [|reflexivity].
        exfalso. apply Hko. unfold all_ok. now rewrite Forall_singleton.
      * rewrite (next_call_key E d t st).
        rewrite (next_call_records E d t st).
        unfold buffer_of. now rewrite Hbufs.
      * rewrite (next_call_records E d t st).
        now rewrite Hb.
Qed.

Lemma close_spider_unfold E spider st :
  close_spider E spider st
  = match for_each (buffers (self st)) (close_entry E) st with
    | (st1, Return _) => lift_net (Loader.log (InfoClosed (name spider))) st1
    | (st1, Raise e) => (st1, Raise e)
    end.
Proof. reflexivity. Qed.

Lemma buffer_of_absent k st :
  k ∉ Dict.keys (buffers (self st)) -> buffer_of k st = [].
Proof. intros H. unfold buffer_of. now rewrite get_not_in_keys. Qed.

Lemma close_spider_spec E spider st :
  let st' := fst (close_spider E spider st) in
  exists calls,
    Loader.sent (net st') = Loader.sent (net st) ++ calls
    /\ same_config (self st) (self st')
    /\ ((all_ok calls
         /\ snd (close_spider E spider st) = Return tt
         /\ (forall k, buffer_of k st' = [])
         /\ (forall k, batches_for k calls = batch_of (buffer_of k st)))
        \/ (exists cs c e,
              calls = cs ++ [c]
              /\ all_ok cs
              /\ Http.ok (Loader.c_outcome c) = false
              /\ snd (close_spider E spider st) = Raise e
              /\ buffer_of (key_of c) st' = Loader.c_records c
              /\ Loader.c_records c <> [])).
Proof.
  cbn zeta. rewrite close_spider_unfold.
  destruct (close_loop_spec E (buffers (self st)) st) as (calls & Hs & Hc & Hcase).
  exists calls.
  destruct (for_each (buffers (self st)) (close_entry E) st) as [st1 r] eqn:Hloop.
  cbn [fst snd] in *.
  destruct Hcase as [(Hall & Hr & Hb & Hbat) | (cs & c & e & Hcalls & Hcs & Hc' & Hr & Hkeep & Hne)];
    subst r.
  - split_and!; [exact Hs | exact Hc |]. left. split_and!; auto.
    + intros k. change (buffer_of k st1 = []). rewrite Hb.
      case_decide as Hk; [reflexivity | now apply buffer_of_absent].
    + intros k. rewrite Hbat. case_decide as Hk; [reflexivity|].
      now rewrite buffer_of_absent.
  - split_and!; [exact Hs | exact Hc |]. right. exists cs, c, e. split_and!; auto.
Qed.

Lemma get_of_entry {K V : Type} `{EqDecision K} (d : list (K * V)) k v :
  NoDup (Dict.keys d) -> (k, v) ∈ d -> Dict.get k d = Some v.
Proof.
  unfold Dict.keys. induction d as [|[k' v'] d IH]; intros Hnd Hin.
  - inversion Hin.
  - cbn [map fst] in Hnd. apply NoDup_cons in Hnd as [Hk' Hnd].
    apply elem_of_cons in Hin as [[= -> ->]|Hin]; cbn [Dict.get].
    + now rewrite decide_True.
    + rewrite decide_False; [now apply IH|].
      intros ->. apply Hk'. change k with (fst (k, v)).
      apply list_elem_of_In, in_map, list_elem_of_In. exact Hin.
Qed.

(** The loop of [close_spider], call by call: the loads follow the
    non-empty entries in the order of the dict, each with its entry's records,
    and stop with the first that fails; the buffers already sent are empty
    and all the others are as they were. *)
Lemma close_loop_ordered E es :
  forall st,
    NoDup (Dict.keys es) ->
    (forall k v, (k, v) ∈ es -> buffer_of k st = v) ->
    exists calls,
      Loader.sent (net (fst (for_each es (close_entry E) st)))
      = Loader.sent (net st) ++ calls
      /\ (fun c => (key_of c, Loader.c_records c)) <$> calls
         = take (length calls) (filter (fun e => snd e <> []) es)
      /\ ((all_ok calls
           /\ length calls = length (filter (fun e => snd e <> []) es)
           /\ snd (for_each es (close_entry E) st) = Return tt)
          \/ (exists cs c,
                calls = cs ++ [c]
                /\ all_ok cs
                /\ Http.ok (Loader.c_outcome c) = false
                /\ snd (for_each es (close_entry E) st)
                   = raised_for (Loader.c_outcome c)
                /\ forall k,
                     buffer_of k (fst (for_each es (close_entry E) st))
                     = if decide (k ∈ key_of <$> cs) then [] else buffer_of k st)).
Proof.
  induction es as [|[[d t] v] es IH]; intros st Hnd Hbuf.
  - exists []. cbn. rewrite app_nil_r. split_and!; auto.
    left. split_and!; auto. constructor.
  - unfold Dict.keys in Hnd. cbn [map fst] in Hnd.
    apply NoDup_cons in Hnd as [Hfresh Hnd].
    cbn [for_each]. unfold bind. rewrite close_entry_flush. cbn [fst snd].
    pose proof (flush_sent E d t st) as Hsent.
    assert (Hv : buffer_of (d, t) st = v) by (apply Hbuf, elem_of_cons; auto).
    assert (Hframe : forall k' v', (k', v') ∈ es ->
              buffer_of k' (fst (_flush E d t st)) = v').
    { intros k' v' Hin. unfold buffer_of. rewrite flush_frame.
      - apply (Hbuf k' v'). apply elem_of_cons. auto.
      - intros ->. apply Hfresh. change (d, t) with (fst ((d, t), v')).
        apply list_elem_of_In, in_map, list_elem_of_In. exact Hin. }
    rewrite filter_cons. cbn [snd].
    destruct (decide (all_ok (flush_calls E d t st))) as [Hok|Hko].
    + destruct (flush_ok E d t st Hok) as [Hret Hclr].
      destruct (_flush E d t st) as [st1 r1] eqn:Hfl. cbn [fst snd] in *. subst r1.
      destruct (IH st1 Hnd Hframe) as (calls & Hs & Hpairs & Hcase).
      unfold flush_calls in Hsent, Hok.
      destruct (buffer_of (d, t) st) as [|r rs] eqn:Hb; subst v.
      * rewrite decide_False by auto. rewrite app_nil_r in Hsent.
        rewrite Hsent in Hs. exists calls. split_and!; [exact Hs | exact Hpairs |].
        destruct Hcase as [H | (cs & c & Hc & Hcs & Hbad & Hr & Hrest)];
          [left; exact H|].
        right. exists cs, c. split_and!; auto.
        intros k. rewrite Hrest, Hclr.
        destruct (decide (k = (d, t))) as [->|Hk]; [|reflexivity].
        rewrite Hb. now destruct (decide _).
      * rewrite decide_True by discriminate.
        exists (next_call E d t st :: calls). split_and!.
        -- rewrite Hs, Hsent. now rewrite <- app_assoc.
        -- cbn [fmap list_fmap length take].
           rewrite (next_call_key E d t st), (next_call_records E d t st), Hb.
           f_equal. exact Hpairs.
        -- destruct Hcase as [(Hall & Hlen & Hr) | (cs & c & Hc & Hcs & Hbad & Hr & Hrest)].
           ++ left. split_and!; [|cbn [length]; now f_equal|exact Hr].
              apply Forall_cons. split; [|exact Hall].
              unfold all_ok in Hok. now rewrite Forall_singleton in Hok.
           ++ right. exists (next_call E d t st :: cs), c. split_and!; auto.
              ** now rewrite Hc.
              ** apply Forall_cons. split; [|exact Hcs].
                 unfold all_ok in Hok. now rewrite Forall_singleton in Hok.
              ** intros k. rewrite Hrest, Hclr. rewrite fmap_cons.
                 rewrite (next_call_key E d t st).
                 destruct (decide (k = (d, t))) as [Hk|Hk],
                   (decide (k ∈ key_of <$> cs)) as [Hin|Hin].
                 --- now rewrite decide_True by (apply elem_of_cons; auto).
                 --- now rewrite decide_True by (apply elem_of_cons; auto).
                 --- now rewrite decide_True by (apply elem_of_cons; auto).
                 --- now rewrite decide_False by (rewrite elem_of_cons; tauto).
    + destruct (flush_failed E d t st Hko) as (e' & Hraise & Hbufs).
      unfold flush_calls in Hsent, Hko.
      destruct (buffer_of (d, t) st) as [|r rs] eqn:Hb; subst v;
        [exfalso; apply Hko; constructor|].
      assert (Hbad : Http.ok (Loader.c_outcome (next_call E d t st)) = false).
      { destruct (Http.ok (Loader.c_outcome (next_call E d t st))) eqn:Ho; [|reflexivity].
        exfalso. apply Hko. unfold all_ok. now rewrite Forall_singleton. }
      assert (Hexn : snd (_flush E d t st)
                     = raised_for (Loader.c_outcome (next_call E d t st))).
      { apply flush_raises; [now rewrite Hb | exact Hbad]. }
      destruct (_flush E d t st) as [st1 r1] eqn:Hfl. cbn [fst snd] in *. subst r1.
      cbn [fst snd]. rewrite decide_True by discriminate.
      exists [next_call E d t st]. split_and!.
      * exact Hsent.
      * cbn [fmap list_fmap length take].
        now rewrite (next_call_key E d t st), (next_call_records E d t st), Hb.
      * right. exists [], (next_call E d t st). split_and!; auto.
        -- constructor.
        -- intros k. rewrite decide_False by (cbn; apply not_elem_of_nil).
           unfold buffer_of. now rewrite Hbufs.
Qed.

Example close_spider_two_buffers_ok :
  let r := close_spider healthy QuotesSpider two_buffered in
  snd r = Return tt
  /\ (fun c => (key_of c, Loader.c_records c)) <$> Loader.sent (net (fst r))
     = [(("demo", "quotes"), [quote 0]); (("demo", "items"), [quote 1])]
  /\ buffers (self (fst r)) = [(("demo", "quotes"), []); (("demo", "items"), [])].
Proof. vm_compute. repeat split. Qed.

(** C2, refuted as stated.  Two destinations hold a record each and the
    endpoint rejects the first load: [close_spider] raises the HTTP error to
    its caller, only the first buffer was attempted, and the second is never
    flushed: its record is still buffered when [close_spider] is left. *)
Lemma close_spider_raises_and_stops :
  let r := close_spider first_fails QuotesSpider two_buffered in
  snd r = Raise (HTTPError 500 "Internal Server Error")
  /\ key_of <$> Loader.sent (net (fst r)) = [("demo", "quotes")]
  /\ buffer_of ("demo", "items") (fst r) = [quote 1].
Proof. vm_compute. repeat split. Qed.

(** C2, as amended.  [close_spider] flushes the non-empty buffers one after
    the other, in the order of the buffers dict: the loads it makes are, call
    by call, the first non-empty entries of the dict with their records.  If
    every load succeeds there is one load per non-empty entry, it returns
    normally, every buffer is empty, and each destination's buffered records
    went out as one batch.  Otherwise the first failed load ends it: that
    call is the last one made, its exception reaches the caller, the buffers
    sent before it are empty, and every other buffer, the failed one and all
    those after it included, holds the records it held. *)
Theorem close_spider_flushes_until_failure E spider st :
  NoDup (Dict.keys (buffers (self st))) ->
  let pending := filter (fun e => snd e <> []) (buffers (self st)) in
  let st' := fst (close_spider E spider st) in
  exists calls,
    Loader.sent (net st') = Loader.sent (net st) ++ calls
    /\ (fun c => (key_of c, Loader.c_records c)) <$> calls
       = take (length calls) pending
    /\ ((all_ok calls
         /\ length calls = length pending
         /\ snd (close_spider E spider st) = Return tt
         /\ (forall k, buffer_of k st' = [])
         /\ (forall k, batches_for k calls = batch_of (buffer_of k st)))
        \/ (exists cs c,
              calls = cs ++ [c]
              /\ all_ok cs
              /\ Http.ok (Loader.c_outcome c) = false
              /\ snd (close_spider E spider st) = raised_for (Loader.c_outcome c)
              /\ buffer_of (key_of c) st' = Loader.c_records c
              /\ Loader.c_records c <> []
              /\ (forall k, buffer_of k st'
                            = if decide (k ∈ key_of <$> cs) then []
                              else buffer_of k st))).
Proof.
  intros Hnd pending st'. subst pending st'.
  destruct (close_spider_spec E spider st) as (calls' & Hs' & _ & Hcase').
  cbn zeta in Hs', Hcase'.
  rewrite close_spider_unfold in *.
  destruct (close_loop_ordered E (buffers (self st)) st Hnd)
    as (calls & Hs & Hpairs & Hcase).
  { intros k v Hin. unfold buffer_of. now rewrite (get_of_entry _ k v Hnd Hin). }
  destruct (for_each (buffers (self st)) (close_entry E) st) as [st1 r] eqn:Hloop.
  cbn [fst snd] in Hs, Hcase.
  exists calls.
  destruct Hcase as [(Hall & Hlen & Hr) | (cs & c & Hc & Hcs & Hbad & Hr & Hrest)];
    subst r.
  - cbn [fst snd] in *.
    assert (calls' = calls) as ->.
    { eapply app_inv_head. rewrite <- Hs'. exact Hs. }
    split_and!; [exact Hs | exact Hpairs |].
    destruct Hcase' as [(_ & _ & Hempty & Hbat) | (cs & c & e & _ & _ & _ & Hr & _)];
      [|discriminate].
    left. split_and!; auto.
  - destruct (Loader.c_outcome c) as [body|code body|reason|reason|msg] eqn:Ho;
      cbn [Http.ok] in Hbad; [discriminate| | | |];
      cbn [raised_for fst snd] in *;
      (assert (calls' = calls) as -> by (eapply app_inv_head; rewrite <- Hs'; exact Hs));
      (split_and!; [exact Hs | exact Hpairs |]);
      (destruct Hcase' as [(_ & Hr & _) | (cs' & c' & e & Hc' & _ & _ & _ & Hkeep & Hne)];
         [discriminate|]);
      rewrite Hc in Hc'; apply app_inj_tail in Hc' as [_ <-];
      right; exists cs, c; rewrite Ho; split_and!; auto.
Qed.

Lemma close_spider_flushes_until_failure_witness :
  exists calls,
    Loader.sent (net (fst (close_spider first_fails QuotesSpider two_buffered)))
    = Loader.sent (net two_buffered) ++ calls
    /\ (fun c => (key_of c, Loader.c_records c)) <$> calls
       = take (length calls)
           (filter (fun e => snd e <> []) (buffers (self two_buffered)))
    /\ ((all_ok calls
         /\ length calls
            = length (filter (fun e => snd e <> []) (buffers (self two_buffered)))
         /\ snd (close_spider first_fails QuotesSpider two_buffered) = Return tt
         /\ (forall k,
               buffer_of k (fst (close_spider first_fails QuotesSpider two_buffered)) = [])
         /\ (forall k, batches_for k calls = batch_of (buffer_of k two_buffered)))
        \/ (exists cs c,
              calls = cs ++ [c]
              /\ all_ok cs
              /\ Http.ok (Loader.c_outcome c) = false
              /\ snd (close_spider first_fails QuotesSpider two_buffered)
                 = raised_for (Loader.c_outcome c)
              /\ buffer_of (key_of c)
                   (fst (close_spider first_fails QuotesSpider two_buffered))
                 = Loader.c_records c
              /\ Loader.c_records c <> []
              /\ (forall k,
                    buffer_of k (fst (close_spider first_fails QuotesSpider two_buffered))
                    = if decide (k ∈ key_of <$> cs) then []
                      else buffer_of k two_buffered))).
Proof.
  apply (close_spider_flushes_until_failure first_fails QuotesSpider two_buffered).
  vm_compute. apply NoDup_cons. split; [|apply NoDup_singleton].
  rewrite list_elem_of_singleton. discriminate.
Defined.

(** ** A whole run: submissions, then shutdown *)

Lemma submit_unfold E spider st it :
  submit E spider st it
  = match _resolve_target (self st) spider it with
    | Raise _ => st
    | Return k =>
        if batch_size (self st) <=? Z.of_nat (length (buffer_of k (buffered k it st)))
        then fst (_flush E (fst k) (snd k) (buffered k it st))
        else buffered k it st
    end.
Proof.
  unfold submit.
  destruct (_resolve_target (self st) spider it) as [k|e] eqn:Hres.
  - rewrite (process_item_resolved E it spider st k Hres).
    destruct (_ <=? _); [|reflexivity].
    destruct (_flush E (fst k) (snd k) (buffered k it st)) as [st' [[]|e]]; reflexivity.
  - now rewrite (process_item_unresolved E it spider st e Hres).
Qed.

Lemma submit_extends E spider st it :
  exists calls,
    Loader.sent (net (submit E spider st it)) = Loader.sent (net st) ++ calls.
Proof.
  rewrite submit_unfold.
  destruct (_resolve_target (self st) spider it) as [k|e].
  - destruct (_ <=? _).
    + rewrite flush_sent. eauto.
    + exists []. now rewrite app_nil_r.
  - exists []. now rewrite app_nil_r.
Qed.

Lemma submit_all_extends E spider items st :
  exists calls,
    Loader.sent (net (submit_all E spider items st)) = Loader.sent (net st) ++ calls.
Proof.
  revert st. induction items as [|it items IH]; intros st; simpl.
  - exists []. now rewrite app_nil_r.
  - destruct (IH (submit E spider st it)) as [cs2 H2].
    destruct (submit_extends E spider st it) as [cs1 H1].
    exists (cs1 ++ cs2). now rewrite H2, H1, app_assoc.
Qed.

Lemma submit_config E spider st it :
  same_config (self st) (self (submit E spider st it)).
Proof.
  rewrite submit_unfold.
  destruct (_resolve_target (self st) spider it) as [k|e];
    [|apply same_config_refl].
  destruct (_ <=? _).
  - eapply same_config_trans; [|apply flush_config]. now repeat split.
  - now repeat split.
Qed.

Lemma submitted_for_snoc p spider k done it :
  submitted_for p spider k (done ++ [it])
  = submitted_for p spider k done
    ++ (if decide (_resolve_target p spider it = Return k) then [asdict it] else []).
Proof.
  unfold submitted_for. rewrite filter_app, fmap_app, filter_cons, filter_nil.
  now case_decide.
Qed.

Lemma buffered_total k0 it st k :
  concat (batches_for k (Loader.sent (net (buffered k0 it st))))
    ++ buffer_of k (buffered k0 it st)
  = (concat (batches_for k (Loader.sent (net st))) ++ buffer_of k st)
    ++ (if decide (k0 = k) then [asdict it] else []).
Proof.
  change (net (buffered k0 it st)) with (net st).
  case_decide as Hk.
  - subst k. now rewrite buffer_of_buffered_eq, app_assoc.
  - rewrite buffer_of_buffered_ne by assumption. now rewrite app_nil_r.
Qed.

(** One submission keeps the books balanced, provided the load it may have
    triggered succeeded. *)
Lemma submit_conserved E p spider done st it :
  same_config p (self st) ->
  conserved p spider done st ->
  all_ok (Loader.sent (net (submit E spider st it))) ->
  conserved p spider (done ++ [it]) (submit E spider st it).
Proof.
  intros Hcfg Hcons Hok k.
  rewrite submitted_for_snoc, <- (Hcons k).
  rewrite submit_unfold in *. rewrite (resolve_same_config p (self st)) in * by assumption.
  destruct (_resolve_target p spider it) as [k0|e].
  - assert (Hflip : (if decide (Return k0 = Return k) then [asdict it] else [])
                    = if decide (k0 = k) then [asdict it] else []).
    { repeat case_decide; simplify_eq; done. }
    rewrite Hflip, <- buffered_total.
    destruct (_ <=? _); [|reflexivity].
    apply flush_preserves_total.
    rewrite flush_sent in Hok. unfold all_ok in *.
    now apply Forall_app in Hok as [_ Hok].
  - rewrite decide_False by discriminate. now rewrite app_nil_r.
Qed.

Lemma submit_all_conserved E p spider items :
  forall done st,
    same_config p (self st) ->
    conserved p spider done st ->
    all_ok (Loader.sent (net (submit_all E spider items st))) ->
    conserved p spider (done ++ items) (submit_all E spider items st)
    /\ same_config p (self (submit_all E spider items st)).
Proof.
  induction items as [|it items IH]; intros done st Hcfg Hcons Hok; simpl in *.
  - now rewrite app_nil_r.
  - replace (done ++ it :: items) with ((done ++ [it]) ++ items)
      by now rewrite <- app_assoc.
    apply IH; [| |exact Hok].
    + eapply same_config_trans; [exact Hcfg | apply submit_config].
    + apply submit_conserved; [assumption..|].
      destruct (submit_all_extends E spider items (submit E spider st it)) as [cs Hcs].
      rewrite Hcs in Hok. unfold all_ok in *. now apply Forall_app in Hok as [Hok _].
Qed.

Lemma start_conserved p spider :
  buffers p = [] -> conserved p spider [] (start p).
Proof. intros Hb k. unfold buffer_of, start. simpl. now rewrite Hb. Qed.

Lemma flush_calls_records E d t st :
  Forall (fun c => Loader.c_records c = buffer_of (d, t) st /\ key_of c = (d, t))
    (flush_calls E d t st).
Proof.
  unfold flush_calls. destruct (buffer_of (d, t) st) eqn:Hb; constructor.
  - rewrite next_call_records, next_call_key. now rewrite Hb.
  - constructor.
Qed.

(** With a batch size of at least one, a submission that triggers a load
    sends exactly [batch_size] records and leaves every buffer short of a
    full batch. *)
Lemma submit_full E p spider st it :
  same_config p (self st) ->
  1 <= batch_size p ->
  full_batches p st ->
  all_ok (Loader.sent (net (submit E spider st it))) ->
  full_batches p (submit E spider st it).
Proof.
  intros Hcfg Hpos [Hsent Hshort] Hok.
  assert (Hb : batch_size (self st) = batch_size p) by (symmetry; apply Hcfg).
  rewrite submit_unfold in *.
  destruct (_resolve_target (self st) spider it) as [k0|e]; [|now split].
  rewrite Hb in *.
  assert (Hlen : Z.of_nat (length (buffer_of k0 (buffered k0 it st)))
                 = Z.of_nat (length (buffer_of k0 st)) + 1).
  { rewrite buffer_of_buffered_eq, length_app. simpl. lia. }
  assert (Hother : forall k, k <> k0 ->
            buffer_of k (buffered k0 it st) = buffer_of k st).
  { intros k Hk. apply buffer_of_buffered_ne. congruence. }
  destruct (Z.leb_spec (batch_size p) (Z.of_nat (length (buffer_of k0 (buffered k0 it st)))))
    as [Hfull|Hroom].
  - rewrite flush_sent in Hok. unfold all_ok in Hok.
    apply Forall_app in Hok as [_ Hok].
    destruct (flush_ok E (fst k0) (snd k0) (buffered k0 it st) Hok) as [_ Hbuf].
    split.
    + rewrite flush_sent. apply Forall_app. split; [exact Hsent|].
      eapply Forall_impl; [apply flush_calls_records|].
      intros c [Hrec _]. simpl. rewrite Hrec, key_eta.
      specialize (Hshort k0). lia.
    + intros k. rewrite Hbuf, key_eta. case_decide as Hk; [simpl; lia|].
      rewrite Hother by assumption. apply Hshort.
  - split; [exact Hsent|].
    intros k. destruct (decide (k = k0)) as [->|Hk]; [lia|].
    rewrite Hother by assumption. apply Hshort.
Qed.

Lemma submit_all_full E p spider items :
  forall st,
    same_config p (self st) ->
    1 <= batch_size p ->
    full_batches p st ->
    all_ok (Loader.sent (net (submit_all E spider items st))) ->
    full_batches p (submit_all E spider items st).
Proof.
  induction items as [|it items IH]; intros st Hcfg Hpos Hfull Hok; simpl in *;
    [assumption|].
  apply IH; [|assumption| |exact Hok].
  - eapply same_config_trans; [exact Hcfg | apply submit_config].
  - apply submit_full; [assumption..|].
    destruct (submit_all_extends E spider items (submit E spider st it)) as [cs Hcs].
    rewrite Hcs in Hok. unfold all_ok in *. now apply Forall_app in Hok as [Hok _].
Qed.

Lemma start_full p : 1 <= batch_size p -> buffers p = [] -> full_batches p (start p).
Proof.
  intros Hpos Hb. split; [constructor|].
  intros k. unfold buffer_of, start. simpl. rewrite Hb. simpl. lia.
Qed.

Lemma concat_batch_of b : concat (batch_of b) = b.
Proof. destruct b; simpl; [reflexivity | now rewrite app_nil_r]. Qed.

Lemma record_batch_elem c calls :
  c ∈ calls -> Loader.c_records c ∈ batches_for (key_of c) calls.
Proof.
  intros Hin. unfold batches_for. apply list_elem_of_fmap. exists c. split; [reflexivity|].
  now apply list_elem_of_filter.
Qed.

Lemma batch_of_elem r b : r ∈ batch_of b -> r = b.
Proof.
  destruct b; simpl; intros Hin; [inversion Hin|].
  now apply list_elem_of_singleton in Hin.
Qed.

(** The run as a whole, when every load succeeded. *)
Lemma session_spec E p spider items :
  buffers p = [] ->
  let mid := submit_all E spider items (start p) in
  let st' := fst (session E spider items (start p)) in
  all_ok (Loader.sent (net st')) ->
  conserved p spider items mid
  /\ (1 <= batch_size p -> full_batches p mid)
  /\ exists calls,
       Loader.sent (net st') = Loader.sent (net mid) ++ calls
       /\ (forall k, batches_for k calls = batch_of (buffer_of k mid)).
Proof.
  intros Hempty mid st' Hok. subst st'. unfold session in *. fold mid in Hok |- *.
  destruct (close_spider_spec E spider mid) as (calls & Hs & _ & Hcase).
  rewrite Hs in Hok. unfold all_ok in Hok. apply Forall_app in Hok as [Hmid Hcalls].
  destruct (submit_all_conserved E p spider items [] (start p)) as [Hcons _];
    [apply same_config_refl | now apply start_conserved | exact Hmid |].
  split; [exact Hcons|]. split.
  - intros Hpos. apply submit_all_full;
      [apply same_config_refl | assumption | now apply start_full | exact Hmid].
  - exists calls. split; [exact Hs|].
    destruct Hcase as [(_ & _ & _ & Hbat) | (cs & c & e & -> & _ & Hc & _)];
      [exact Hbat|].
    apply Forall_app in Hcalls as [_ Hc']. rewrite Forall_singleton in Hc'.
    congruence.
Qed.

Example session_three_quotes :
  let st' := fst (session healthy QuotesSpider (quotes 3)
                    (start (init demo_loader "demo" "items" 2))) in
  Loader.c_records <$> Loader.sent (net st') = [[quote 0; quote 1]; [quote 2]].
Proof. vm_compute. reflexivity. Qed.

(** C4, refuted as stated.  With a batch size of 0 every record is sent on
    its own, one record more than the batch size, although no load fails.
    With a batch size of 2 and a first load that fails, the two records stay
    buffered and the next load carries three. *)
Lemma batch_larger_than_batch_size :
  (let st' := fst (session healthy QuotesSpider [quote 0]
                     (start (init demo_loader "demo" "items" 0))) in
   Http.ok <$> (Loader.c_outcome <$> Loader.sent (net st')) = [true]
   /\ (fun c => length (Loader.c_records c)) <$> Loader.sent (net st') = [1%nat])
  /\ (let st' := fst (session first_fails QuotesSpider (quotes 3)
                        (start (init demo_loader "demo" "items" 2))) in
      (fun c => length (Loader.c_records c)) <$> Loader.sent (net st')
      = [2%nat; 3%nat]).
Proof. vm_compute. repeat split. Qed.

(** C4, as amended.  In a run in which no load fails, the batches handed to
    [load] for a destination, concatenated in call order, are exactly the
    records submitted for it, in submission order; and if moreover the batch
    size is at least 1, no [load] call receives more than [batch_size]
    records. *)
Theorem batches_in_order_and_bounded E ld db tbl b spider items :
  let p := init ld db tbl b in
  let st' := fst (session E spider items (start p)) in
  all_ok (Loader.sent (net st')) ->
  (forall k, concat (batches_for k (Loader.sent (net st')))
             = submitted_for p spider k items)
  /\ (1 <= b ->
      Forall (fun c => Z.of_nat (length (Loader.c_records c)) <= b)
        (Loader.sent (net st'))).
Proof.
  intros p st' Hok.
  destruct (session_spec E p spider items eq_refl Hok)
    as (Hcons & Hfull & calls & Hs & Hbat).
  fold st' in Hs. split.
  - intros k. rewrite Hs, batches_for_app, concat_app, Hbat, concat_batch_of.
    apply Hcons.
  - intros Hpos. destruct (Hfull Hpos) as [Hsent Hshort]. rewrite Hs.
    apply Forall_app. split.
    + eapply Forall_impl; [exact Hsent|]. intros c Hc. simpl in *.
      change (batch_size p) with b in Hc. lia.
    + apply Forall_forall. intros c Hin.
      apply record_batch_elem in Hin. rewrite Hbat in Hin.
      apply batch_of_elem in Hin. rewrite Hin.
      specialize (Hshort (key_of c)). change (batch_size p) with b in Hshort. lia.
Qed.

Lemma batches_in_order_and_bounded_witness :
  concat (batches_for ("demo", "quotes")
            (Loader.sent (net (fst (session healthy QuotesSpider (quotes 3)
                                      (start (init demo_loader "demo" "items" 2)))))))
  = submitted_for (init demo_loader "demo" "items" 2) QuotesSpider
      ("demo", "quotes") (quotes 3).
Proof.
  apply (batches_in_order_and_bounded healthy demo_loader "demo" "items" 2
           QuotesSpider (quotes 3)).
  vm_compute. repeat constructor.
Defined.

(** ** Counting the loads *)

Lemma ceil_div_floor n b :
  0 < b -> ceil_div n b = n / b + (if n mod b =? 0 then 0 else 1).
Proof.
  intros Hb. unfold ceil_div. destruct (Z.eqb_spec (n mod b) 0) as [Hz|Hnz].
  - rewrite Z.div_opp_l_z by lia. lia.
  - rewrite Z.div_opp_l_nz by lia. lia.
Qed.

Lemma length_concat_full (b : Z) (rs : list (list item)) :
  Forall (fun r => Z.of_nat (length r) = b) rs ->
  Z.of_nat (length (concat rs)) = Z.of_nat (length rs) * b.
Proof.
  induction 1 as [|r rs Hr _ IH]; simpl; [reflexivity|].
  rewrite length_app. lia.
Qed.

Lemma batches_for_Forall (P : list item -> Prop) k calls :
  Forall (fun c => P (Loader.c_records c)) calls -> Forall P (batches_for k calls).
Proof.
  intros H. unfold batches_for. apply Forall_fmap.
  apply Forall_forall. intros c Hin. apply list_elem_of_filter in Hin as [_ Hin].
  rewrite Forall_forall in H. now apply H.
Qed.

Lemma length_batch_of b :
  Z.of_nat (length (batch_of b)) = if Z.of_nat (length b) =? 0 then 0 else 1.
Proof. now destruct b. Qed.

Lemma submitted_for_all p spider k items :
  Forall (fun it => _resolve_target p spider it = Return k) items ->
  submitted_for p spider k items = asdict <$> items.
Proof.
  intros H. unfold submitted_for. f_equal.
  induction H as [|it items Hit _ IH]; [reflexivity|].
  rewrite filter_cons, decide_True by assumption. now rewrite IH.
Qed.

Lemma load_count_spec E p spider items k :
  buffers p = [] ->
  1 <= batch_size p ->
  let mid := submit_all E spider items (start p) in
  let st' := fst (session E spider items (start p)) in
  all_ok (Loader.sent (net st')) ->
  let n := Z.of_nat (length (submitted_for p spider k items)) in
  Forall (fun r => Z.of_nat (length r) = batch_size p)
    (batches_for k (Loader.sent (net mid)))
  /\ Z.of_nat (length (batches_for k (Loader.sent (net mid)))) = n / batch_size p
  /\ Z.of_nat (length (buffer_of k mid)) = n mod batch_size p
  /\ batches_for k (Loader.sent (net st'))
     = batches_for k (Loader.sent (net mid)) ++ batch_of (buffer_of k mid)
  /\ Z.of_nat (length (batches_for k (Loader.sent (net st')))) = ceil_div n (batch_size p).
Proof.
  intros Hempty Hpos mid st' Hok n.
  destruct (session_spec E p spider items Hempty Hok)
    as (Hcons & Hfull & calls & Hs & Hbat).
  fold st' in Hs. fold mid in Hcons, Hfull, Hs, Hbat.
  destruct (Hfull Hpos) as [Hsent Hshort].
  assert (Hall : Forall (fun r => Z.of_nat (length r) = batch_size p)
                   (batches_for k (Loader.sent (net mid)))).
  { now apply batches_for_Forall. }
  assert (Hn : n = batch_size p * Z.of_nat (length (batches_for k (Loader.sent (net mid))))
                   + Z.of_nat (length (buffer_of k mid))).
  { subst n. rewrite <- (Hcons k), length_app, Nat2Z.inj_add.
    rewrite (length_concat_full (batch_size p)) by assumption. lia. }
  specialize (Hshort k).
  assert (Hq : Z.of_nat (length (batches_for k (Loader.sent (net mid)))) = n / batch_size p).
  { apply Z.div_unique_pos with (r := Z.of_nat (length (buffer_of k mid))); lia. }
  assert (Hr : Z.of_nat (length (buffer_of k mid)) = n mod batch_size p).
  { apply Z.mod_unique_pos
      with (q := Z.of_nat (length (batches_for k (Loader.sent (net mid))))); lia. }
  split_and!; try assumption.
  - now rewrite Hs, batches_for_app, Hbat.
  - rewrite Hs, batches_for_app, Hbat, length_app, Nat2Z.inj_add, length_batch_of.
    rewrite ceil_div_floor by lia. now rewrite Hq, Hr.
Qed.

(** The specification's scenario: 120 records, batch size 50. *)
Example session_120_by_50 :
  let p := init demo_loader "demo" "items" 50 in
  let mid := submit_all healthy QuotesSpider (quotes 120) (start p) in
  let st' := fst (session healthy QuotesSpider (quotes 120) (start p)) in
  (fun c => (key_of c, length (Loader.c_records c))) <$> Loader.sent (net mid)
    = [(("demo", "quotes"), 50%nat); (("demo", "quotes"), 50%nat)]
  /\ (fun c => (key_of c, length (Loader.c_records c))) <$> Loader.sent (net st')
    = [(("demo", "quotes"), 50%nat); (("demo", "quotes"), 50%nat);
       (("demo", "quotes"), 20%nat)].
Proof. vm_compute. split; reflexivity. Qed.

(** C5, refuted as stated.  Two records for one destination, batch size 2,
    and an endpoint that rejects the first request: the load triggered by
    the second submission fails, the records stay buffered, and shutdown
    loads them again.  That makes two [load] invocations where
    [ceil(2 / 2)] is one. *)
Lemma failed_load_is_repeated :
  let p := init demo_loader "demo" "items" 2 in
  let st' := fst (session first_fails QuotesSpider (quotes 2) (start p)) in
  submitted_for p QuotesSpider ("demo", "quotes") (quotes 2) = quotes 2
  /\ batches_for ("demo", "quotes") (Loader.sent (net st'))
     = [quotes 2; quotes 2]
  /\ ceil_div 2 2 = 1.
Proof. vm_compute. repeat split. Qed.

(** C5, as amended.  In a run with a batch size of at least 1 in which no
    load fails, let [n] be the number of submitted records that resolve to
    destination [k] (all of them, if every record resolves to [k]).  Then
    [floor(n / batch_size)] loads of exactly [batch_size] records are made
    for [k] while submitting, shutdown adds one load with the remaining
    [n mod batch_size] records if there are any, and the total number of
    loads for [k] is [ceil(n / batch_size)]. *)
Theorem load_count_is_ceiling E ld db tbl b spider items k :
  1 <= b ->
  let p := init ld db tbl b in
  let mid := submit_all E spider items (start p) in
  let st' := fst (session E spider items (start p)) in
  all_ok (Loader.sent (net st')) ->
  let n := Z.of_nat (length (submitted_for p spider k items)) in
  (Forall (fun it => _resolve_target p spider it = Return k) items ->
   n = Z.of_nat (length items))
  /\ Forall (fun r => Z.of_nat (length r) = b) (batches_for k (Loader.sent (net mid)))
  /\ Z.of_nat (length (batches_for k (Loader.sent (net mid)))) = n / b
  /\ Z.of_nat (length (buffer_of k mid)) = n mod b
  /\ batches_for k (Loader.sent (net st'))
     = batches_for k (Loader.sent (net mid)) ++ batch_of (buffer_of k mid)
  /\ Z.of_nat (length (batches_for k (Loader.sent (net st')))) = ceil_div n b.
Proof.
  intros Hpos p mid st' Hok n. split.
  - intros Hall. subst n. rewrite submitted_for_all by assumption.
    now rewrite length_fmap.
  - exact (load_count_spec E p spider items k eq_refl Hpos Hok).
Qed.

Lemma load_count_is_ceiling_witness :
  Z.of_nat
    (length
       (batches_for ("demo", "quotes")
          (Loader.sent
             (net (fst (session healthy QuotesSpider (quotes 120)
                          (start (init demo_loader "demo" "items" 50))))))))
  = ceil_div
      (Z.of_nat
         (length (submitted_for (init demo_loader "demo" "items" 50) QuotesSpider
                    ("demo", "quotes") (quotes 120))))
      50.
Proof.
  apply (load_count_is_ceiling healthy demo_loader "demo" "items" 50
           QuotesSpider (quotes 120) ("demo", "quotes")).
  - lia.
  - vm_compute. repeat constructor.
Defined.

(** * Further properties of the code *)

(** ** The loader's request *)

Lemma rstrip_slash_spec s :
  exists n, s = rstrip_slash s +:+ slashes n
            /\ ends_with_slash (rstrip_slash s) = false.
Proof.
  induction s as [|c s (n & Hs & Hend)]; [exists 0%nat; now split|].
  cbn [rstrip_slash].
  destruct (rstrip_slash s) as [|a r] eqn:Hr.
  - destruct (Ascii.eqb_spec c "/") as [->|Hc].
    + exists (S n). split; [|reflexivity]. rewrite Hs at 1. reflexivity.
    + exists n. split.
      * rewrite Hs at 1. reflexivity.
      * cbn. now apply Ascii.eqb_neq.
  - exists n. split.
    + rewrite Hs at 1. reflexivity.
    + exact Hend.
Qed.

(** X15.  [__init__] strips every trailing slash off the host, and nothing
    else: what is kept does not end in a slash, and the host given is what is
    kept followed by slashes only. *)
Theorem init_strips_trailing_slashes host_ user_ password_ timeout_ prefix extra :
  let ld := Loader.init host_ user_ password_ timeout_ prefix extra in
  ends_with_slash (Loader.host ld) = false
  /\ exists n, host_ = Loader.host ld +:+ slashes n.
Proof.
  cbn zeta. cbn [Loader.init Loader.host].
  destruct (rstrip_slash_spec host_) as (n & Hs & Hend). eauto.
Qed.

Lemma add_extra_headers_line hs r :
  Http.url (Loader.add_extra_headers hs r) = Http.url r
  /\ Http.method (Loader.add_extra_headers hs r) = Http.method r
  /\ Http.data (Loader.add_extra_headers hs r) = Http.data r.
Proof.
  revert r. induction hs as [|[k v] hs IH]; intros r; [now repeat split|].
  unfold Loader.add_extra_headers in *. simpl. now rewrite !(proj1 (IH _)),
    !(proj1 (proj2 (IH _))), !(proj2 (proj2 (IH _))).
Qed.

Lemma build_request_signed E ld d t rs label :
  Loader.build_request E ld d t rs label
  = Loader.add_extra_headers (Loader.extra_headers ld) (signed_request E ld d t rs label).
Proof. reflexivity. Qed.

Lemma request_line_and_body_aux E ld d t rs label :
  Http.url (Loader.build_request E ld d t rs label)
  = Loader.host ld +:+ "/api/" +:+ d +:+ "/" +:+ t +:+ "/_stream_load"
  /\ Http.method (Loader.build_request E ld d t rs label) = "PUT"
  /\ Http.data (Loader.build_request E ld d t rs label)
     = str_join newline (map (Loader.json_dumps E) rs).
Proof.
  rewrite build_request_signed.
  destruct (add_extra_headers_line (Loader.extra_headers ld)
              (signed_request E ld d t rs label)) as (-> & -> & ->).
  unfold signed_request.
  destruct (negb (String.eqb (Loader.user ld) "")); now repeat split.
Qed.

(** X16.  Whatever the credentials and the extra headers, the request is a PUT to
    [<host>/api/<database>/<table>/_stream_load] whose body is the records'
    JSON texts in order, separated by line feeds. *)
Theorem request_line_and_body E ld d t rs label :
  let r := Loader.build_request E ld d t rs label in
  Http.url r = Loader.host ld +:+ "/api/" +:+ d +:+ "/" +:+ t +:+ "/_stream_load"
  /\ Http.method r = "PUT"
  /\ Http.data r = str_join newline (map (Loader.json_dumps E) rs).
Proof.
  cbn zeta. rewrite build_request_signed.
  destruct (add_extra_headers_line (Loader.extra_headers ld)
              (signed_request E ld d t rs label)) as (-> & -> & ->).
  unfold signed_request.
  destruct (negb (String.eqb (Loader.user ld) "")); now repeat split.
Qed.

Lemma signed_request_headers E ld d t rs label (h : string) :
  Http.headers (signed_request E ld d t rs label) !! h
  = if decide (h = "Authorization")
    then (if String.eqb (Loader.user ld) "" then None
          else Some ("Basic " +:+ Loader.b64encode E
                       (Loader.user ld +:+ ":" +:+ Loader.password ld)))
    else if decide (h = "Label") then Some label
    else if decide (h = "Strip_outer_array") then Some "true"
    else if decide (h = "Format") then Some "json"
    else if decide (h = "Content-type") then Some "application/json; charset=UTF-8"
    else None.
Proof.
  unfold signed_request.
  change (capitalize "label") with "Label".
  destruct (String.eqb (Loader.user ld) ""); cbn [negb Http.add_header Http.headers];
    change (capitalize "Authorization") with "Authorization";
    change (capitalize "label") with "Label";
    change (capitalize "strip_outer_array") with "Strip_outer_array";
    change (capitalize "format") with "Format";
    change (capitalize "Content-Type") with "Content-type";
    rewrite !lookup_insert, lookup_empty;
    repeat case_decide; subst; try reflexivity; try discriminate; congruence.
Qed.

(** X17.  The three fixed headers go out under their capitalised names with
    their fixed values, unless an extra header of the same name replaces
    them. *)
Theorem fixed_headers_unless_overridden E ld d t rs label (h v : string) :
  (h, v) ∈ [("Content-type", "application/json; charset=UTF-8");
            ("Format", "json"); ("Strip_outer_array", "true")] ->
  Forall (fun hv => capitalize (fst hv) <> h) (Loader.extra_headers ld) ->
  Http.headers (Loader.build_request E ld d t rs label) !! h = Some v.
Proof.
  intros Hin Hall. rewrite build_request_signed.
  rewrite add_extra_headers_lookup by assumption.
  rewrite signed_request_headers.
  repeat (apply elem_of_cons in Hin as [Hin|Hin]; [injection Hin as -> ->; reflexivity|]).
  inversion Hin.
Qed.

Lemma fixed_headers_unless_overridden_witness :
  Http.headers (Loader.build_request healthy demo_loader "demo" "quotes" [quote 0] "l")
    !! "Format" = Some "json".
Proof.
  apply (fixed_headers_unless_overridden healthy demo_loader "demo" "quotes"
           [quote 0] "l" "Format" "json").
  - apply elem_of_cons. right. apply elem_of_cons. left. reflexivity.
  - constructor.
Defined.

(** X18.  Credentials: an [Authorization: Basic ...] header built from
    [user:password] is sent exactly when the user name is not empty; with an
    empty user name none is sent, whatever the password. *)
Theorem authorization_only_with_user E ld d t rs label :
  Forall (fun hv => capitalize (fst hv) <> "Authorization") (Loader.extra_headers ld) ->
  Http.headers (Loader.build_request E ld d t rs label) !! "Authorization"
  = if String.eqb (Loader.user ld) "" then None
    else Some ("Basic " +:+ Loader.b64encode E
                 (Loader.user ld +:+ ":" +:+ Loader.password ld)).
Proof.
  intros Hall. rewrite build_request_signed.
  rewrite add_extra_headers_lookup by assumption.
  now rewrite signed_request_headers.
Qed.

Lemma authorization_only_with_user_witness :
  Http.headers
    (Loader.build_request healthy
       (Loader.init "http://doris-fe:8030" PyNone (PyStr "secret") 30 "scrapy" None)
       "demo" "quotes" [quote 0] "l")
    !! "Authorization" = None.
Proof.
  apply (authorization_only_with_user healthy
           (Loader.init "http://doris-fe:8030" PyNone (PyStr "secret") 30 "scrapy" None)
           "demo" "quotes" [quote 0] "l").
  constructor.
Defined.




Lemma count_newlines_app s1 s2 :
  count_newlines (s1 +:+ s2) = (count_newlines s1 + count_newlines s2)%nat.
Proof.
  induction s1 as [|c s1 IH]; [reflexivity|].
  change (String c s1 +:+ s2) with (String c (s1 +:+ s2)).
  cbn [count_newlines]. rewrite IH. lia.
Qed.

Lemma count_newlines_join parts :
  Forall (fun p => count_newlines p = 0%nat) parts ->
  count_newlines (str_join newline parts) = pred (length parts).
Proof.
  induction 1 as [|p parts Hp Hrest IH]; [reflexivity|].
  destruct parts as [|q parts]; [exact Hp|].
  change (str_join newline (p :: q :: parts))
    with (p +:+ newline +:+ str_join newline (q :: parts)).
  rewrite !count_newlines_app, Hp, IH. reflexivity.
Qed.

(** X20.  One record per line: if no record's JSON text holds a line feed (as is
    the case for [json.dumps] without [indent]), the body of a batch of [n]
    records holds exactly [n - 1] line feeds, and the body of an empty batch
    none. *)
Theorem body_one_record_per_line E ld d t rs label :
  Forall (fun r => count_newlines (Loader.json_dumps E r) = 0%nat) rs ->
  count_newlines (Http.data (Loader.build_request E ld d t rs label))
  = pred (length rs).
Proof.
  intros Hall.
  destruct (request_line_and_body_aux E ld d t rs label) as (_ & _ & ->).
  rewrite count_newlines_join; [now rewrite length_map|].
  now apply Forall_map.
Qed.

Lemma body_one_record_per_line_witness :
  count_newlines
    (Http.data (Loader.build_request healthy demo_loader "demo" "quotes"
                  (quotes 3) "l"))
  = 2%nat.
Proof.
  apply (body_one_record_per_line healthy demo_loader "demo" "quotes" (quotes 3) "l").
  repeat constructor.
Defined.

(** ** Invariants of a pipeline run *)

(** Every state of a run is reached by buffering a record under its
    resolved destination, by flushing, or by logging; a property kept by
    these three steps holds throughout. *)
Section Preservation.
Variable E : Loader.env.
Variable spider : Spider.
Variable I : state -> Prop.
Hypothesis I_buffered : forall st k it,
  I st -> _resolve_target (self st) spider it = Return k -> I (buffered k it st).
Hypothesis I_flush : forall st d t, I st -> I (fst (_flush E d t st)).
Hypothesis I_log : forall st r, I st -> I (fst (lift_net (Loader.log r) st)).

Lemma submit_preserves st it : I st -> I (submit E spider st it).
Proof.
  intros H. rewrite submit_unfold.
  destruct (_resolve_target (self st) spider it) as [k|e] eqn:Hres; [|exact H].
  destruct (_ <=? _); [apply I_flush|]; now apply I_buffered.
Qed.

Lemma submit_all_preserves items : forall st, I st -> I (submit_all E spider items st).
Proof.
  induction items as [|it items IH]; intros st H; [exact H|].
  simpl. apply IH. now apply submit_preserves.
Qed.

Lemma close_loop_preserves es :
  forall st, I st -> I (fst (for_each es (close_entry E) st)).
Proof.
  induction es as [|e es IH]; intros st H; [exact H|].
  cbn [for_each]. unfold bind at 1. rewrite close_entry_flush.
  pose proof (I_flush st (fst (fst e)) (snd (fst e)) H) as H1.
  destruct (_flush E (fst (fst e)) (snd (fst e)) st) as [st1 [[]|err]];
    cbn [fst] in *; [now apply IH | exact H1].
Qed.

Lemma close_spider_preserves st : I st -> I (fst (close_spider E spider st)).
Proof.
  intros H. rewrite close_spider_unfold.
  pose proof (close_loop_preserves (buffers (self st)) st H) as H1.
  destruct (for_each (buffers (self st)) (close_entry E) st) as [st1 [[]|err]];
    cbn [fst] in *; [now apply I_log | exact H1].
Qed.

Lemma session_preserves items st : I st -> I (fst (session E spider items st)).
Proof. intros H. apply close_spider_preserves. now apply submit_all_preserves. Qed.

End Preservation.

Lemma flush_calls_nonempty E d t st :
  Forall (fun c => Loader.c_records c <> []) (flush_calls E d t st).
Proof.
  unfold flush_calls. destruct (buffer_of (d, t) st) eqn:Hb; constructor; [|constructor].
  rewrite next_call_records. now rewrite Hb.
Qed.

(** X4.  [load] is never called with an empty batch: in every run, whatever the
    batch size and whichever loads fail, each call that was made carries at
    least one record. *)
Theorem no_empty_batch_is_loaded E spider items p :
  Forall (fun c => Loader.c_records c <> [])
    (Loader.sent (net (fst (session E spider items (start p))))).
Proof.
  apply (session_preserves E spider
           (fun st => Forall (fun c => Loader.c_records c <> []) (Loader.sent (net st)))).
  - intros st k it H _. exact H.
  - intros st d t H. rewrite flush_sent. apply Forall_app. split; [exact H|].
    apply flush_calls_nonempty.
  - intros st r H. exact H.
  - constructor.
Qed.

Section DictKeys.
Context {K V : Type} `{EqDecision K}.
Implicit Types (d : list (K * V)) (k : K).

Lemma keys_update k f d : Dict.keys (Dict.update k f d) = Dict.keys d.
Proof.
  unfold Dict.keys. induction d as [|[k' v'] d IH]; [reflexivity|].
  simpl. destruct (decide (k' = k)); simpl; [reflexivity|]. now rewrite IH.
Qed.

Lemma keys_setdefault k v d :
  Dict.keys (Dict.setdefault k v d)
  = if decide (k ∈ Dict.keys d) then Dict.keys d else Dict.keys d ++ [k].
Proof.
  unfold Dict.keys. induction d as [|[k' v'] d IH].
  - cbn [Dict.setdefault map fst].
    rewrite decide_False by apply not_elem_of_nil. reflexivity.
  - cbn [Dict.setdefault map fst].
    destruct (decide (k' = k)) as [->|Hne]; cbn [map fst].
    + rewrite decide_True by (apply elem_of_cons; auto). reflexivity.
    + rewrite IH.
      destruct (decide (k ∈ map fst d)) as [Hin|Hin].
      * rewrite decide_True by (apply elem_of_cons; auto). reflexivity.
      * rewrite decide_False; [reflexivity|].
        intros Hin'. apply elem_of_cons in Hin' as [->|Hin']; [congruence|auto].
Qed.

Lemma get_Some_in_keys k v d : Dict.get k d = Some v -> k ∈ Dict.keys d.
Proof.
  intros Hget. destruct (decide (k ∈ Dict.keys d)) as [Hin|Hin]; [exact Hin|].
  rewrite get_not_in_keys in Hget by assumption. discriminate.
Qed.

End DictKeys.

Lemma flush_keys E d t st :
  Dict.keys (buffers (self (fst (_flush E d t st)))) = Dict.keys (buffers (self st)).
Proof.
  destruct (buffer_of (d, t) st) as [|r rs] eqn:Hb.
  - now rewrite flush_empty.
  - destruct (flush_nonempty E d t st) as (w & _ & _ & Hcase); [congruence|].
    destruct (Http.ok _).
    + rewrite Hcase. cbn [fst self with_buffers buffers]. apply keys_update.
    + destruct Hcase as [e ->]. reflexivity.
Qed.

Lemma buffered_keys k it st :
  Dict.keys (buffers (self (buffered k it st)))
  = if decide (k ∈ Dict.keys (buffers (self st))) then Dict.keys (buffers (self st))
    else Dict.keys (buffers (self st)) ++ [k].
Proof.
  unfold buffered, with_buffers. cbn [self buffers].
  now rewrite keys_update, keys_setdefault.
Qed.

Lemma buffer_nonempty_in_keys k st :
  buffer_of k st <> [] -> k ∈ Dict.keys (buffers (self st)).
Proof.
  intros Hne. unfold buffer_of in Hne.
  destruct (Dict.get k (buffers (self st))) as [v|] eqn:Hget; [|now destruct Hne].
  now apply get_Some_in_keys in Hget.
Qed.

Lemma resolve_nonempty p spider it k :
  _resolve_target p spider it = Return k -> nonempty_key k.
Proof.
  unfold _resolve_target.
  destruct (match get_doris_target spider with
            | Some getter => match getter it with
                             | Some resolved => resolved
                             | None => (PyStr (default_database p), PyStr (default_table p))
                             end
            | None => (PyStr (default_database p), PyStr (default_table p))
            end) as [a b].
  destruct (default a (doris_database spider)) as [|ds]; [discriminate|].
  destruct (default b (doris_table spider)) as [|ts];
    [cbn; rewrite orb_true_r; discriminate|].
  cbn. destruct (String.eqb_spec ds ""), (String.eqb_spec ts ""); cbn;
    try discriminate.
  intros [= <-]. now split.
Qed.

(** X5.  Destinations are never empty names: in every run, each key of the
    buffer dict and each [load] call has a non-empty database name and a
    non-empty table name. *)
Theorem destinations_are_never_empty E spider items ld db tbl b :
  let st' := fst (session E spider items (start (init ld db tbl b))) in
  Forall nonempty_key (Dict.keys (buffers (self st')))
  /\ Forall (fun c => nonempty_key (key_of c)) (Loader.sent (net st')).
Proof.
  apply (session_preserves E spider
           (fun st => Forall nonempty_key (Dict.keys (buffers (self st)))
                      /\ Forall (fun c => nonempty_key (key_of c)) (Loader.sent (net st)))).
  - intros st k it [Hk Hs] Hres. split; [|exact Hs].
    rewrite buffered_keys. case_decide; [exact Hk|].
    apply Forall_app. split; [exact Hk|].
    apply Forall_singleton. now apply resolve_nonempty in Hres.
  - intros st d t [Hk Hs]. split; [now rewrite flush_keys|].
    rewrite flush_sent. apply Forall_app. split; [exact Hs|].
    unfold flush_calls. destruct (buffer_of (d, t) st) eqn:Hb; constructor; [|constructor].
    rewrite (next_call_key E d t st).
    rewrite Forall_forall in Hk. apply Hk. apply buffer_nonempty_in_keys. congruence.
  - intros st r H. exact H.
  - split; constructor.
Qed.

Lemma submit_keys E spider st it :
  Dict.keys (buffers (self (submit E spider st it)))
  = first_seen (Dict.keys (buffers (self st)))
      (resolved_keys (self st) spider [it]).
Proof.
  rewrite submit_unfold. unfold resolved_keys, first_seen. cbn [omap list_omap].
  destruct (_resolve_target (self st) spider it) as [k|e]; [|reflexivity].
  cbn [fold_left]. rewrite <- (buffered_keys k it st).
  destruct (_ <=? _); [apply flush_keys | reflexivity].
Qed.

Lemma resolved_keys_config p q spider items :
  same_config p q -> resolved_keys q spider items = resolved_keys p spider items.
Proof.
  intros Hcfg. unfold resolved_keys. induction items as [|it items IH]; [reflexivity|].
  cbn [omap list_omap]. now rewrite IH, (resolve_same_config p q).
Qed.

Lemma submit_all_keys E spider items :
  forall st,
    Dict.keys (buffers (self (submit_all E spider items st)))
    = first_seen (Dict.keys (buffers (self st))) (resolved_keys (self st) spider items).
Proof.
  induction items as [|it items IH]; intros st; [reflexivity|].
  cbn [submit_all fold_left]. fold (submit_all E spider items (submit E spider st it)).
  rewrite IH, submit_keys.
  rewrite (resolved_keys_config (self st) (self (submit E spider st it)) spider items
             (submit_config E spider st it)).
  unfold first_seen, resolved_keys. cbn [omap list_omap].
  destruct (_resolve_target (self st) spider it); reflexivity.
Qed.

Lemma first_seen_NoDup ks : forall seen, NoDup seen -> NoDup (first_seen seen ks).
Proof.
  induction ks as [|k ks IH]; intros seen Hseen; [exact Hseen|].
  unfold first_seen in *. cbn [fold_left]. apply IH.
  case_decide as Hin; [exact Hseen|].
  apply NoDup_app. split_and!; [exact Hseen | | apply NoDup_singleton].
  intros x Hx Hx'. apply list_elem_of_singleton in Hx'. now subst.
Qed.

(** X6.  One buffer per destination, in order of first appearance: after any
    sequence of submissions the keys of the buffer dict are the destinations
    the records resolved to, each once, in the order in which they were
    first seen; a flush, successful or not, never removes a key. *)
Theorem buffers_follow_first_appearance E spider items ld db tbl b :
  let p := init ld db tbl b in
  let mid := submit_all E spider items (start p) in
  Dict.keys (buffers (self mid)) = first_seen [] (resolved_keys p spider items)
  /\ NoDup (Dict.keys (buffers (self mid)))
  /\ Dict.keys (buffers (self (fst (close_spider E spider mid))))
     = Dict.keys (buffers (self mid)).
Proof.
  cbn zeta. rewrite submit_all_keys. cbn [start self init buffers Dict.keys map].
  split_and!; [reflexivity | apply first_seen_NoDup; constructor |].
  apply (close_spider_preserves E spider
           (fun st => Dict.keys (buffers (self st))
                      = first_seen [] (resolved_keys (init ld db tbl b) spider items))).
  - intros st d t H. now rewrite flush_keys.
  - intros st r H. exact H.
  - now rewrite submit_all_keys.
Qed.

Example keys_in_first_seen_order :
  Dict.keys
    (buffers (self (submit_all healthy routing_spider
                      [[("title", PyStr "b")]; [("title", PyStr "a")];
                       [("title", PyStr "b")]]
                      (start (init demo_loader "demo" "items" 50)))))
  = [("demo", "b"); ("demo", "a")].
Proof. vm_compute. reflexivity. Qed.





Lemma delivered_app k cs1 cs2 :
  delivered k (cs1 ++ cs2) = delivered k cs1 ++ delivered k cs2.
Proof. unfold delivered. now rewrite filter_app, batches_for_app. Qed.

(** A flush, successful or not, keeps the sum of what was accepted and what
    is buffered. *)
Lemma flush_preserves_delivered E d t st k :
  concat (delivered k (Loader.sent (net (fst (_flush E d t st)))))
    ++ buffer_of k (fst (_flush E d t st))
  = concat (delivered k (Loader.sent (net st))) ++ buffer_of k st.
Proof.
  destruct (buffer_of (d, t) st) as [|r rs] eqn:Hb.
  - now rewrite flush_empty.
  - destruct (flush_nonempty E d t st) as (w & Hsent & _ & Hcase); [congruence|].
    assert (Hrec : Loader.c_records (next_call E d t st) = r :: rs).
    { rewrite next_call_records. exact Hb. }
    destruct (Http.ok (Loader.c_outcome (next_call E d t st))) eqn:Hok.
    + rewrite Hcase. cbn [fst net]. rewrite Hsent, delivered_app, concat_app.
      unfold delivered at 2. rewrite filter_cons, filter_nil, decide_True by exact Hok.
      unfold batches_for. rewrite filter_cons, filter_nil.
      rewrite (next_call_key E d t st).
      rewrite <- app_assoc. f_equal. rewrite buffer_of_self.
      case_decide as Hk.
      * subst k. cbn [fmap list_fmap concat]. rewrite Hrec, app_nil_r.
        rewrite buffer_of_cleared, app_nil_r. now rewrite Hb.
      * cbn [fmap list_fmap concat app]. unfold buffer_of.
        cbn [self with_buffers buffers]. now rewrite get_update_ne.
    + destruct Hcase as [e ->]. cbn [fst net]. rewrite Hsent, delivered_app.
      unfold delivered at 2. rewrite filter_cons, filter_nil, decide_False
        by (rewrite Hok; discriminate).
      unfold batches_for. rewrite filter_nil. cbn [fmap list_fmap].
      now rewrite app_nil_r.
Qed.

Lemma submit_preserves_delivered E p spider done st it :
  same_config p (self st) ->
  (forall k, concat (delivered k (Loader.sent (net st))) ++ buffer_of k st
             = submitted_for p spider k done) ->
  forall k, concat (delivered k (Loader.sent (net (submit E spider st it))))
              ++ buffer_of k (submit E spider st it)
            = submitted_for p spider k (done ++ [it]).
Proof.
  intros Hcfg Hinv k.
  rewrite submitted_for_snoc, <- (Hinv k).
  rewrite submit_unfold. rewrite (resolve_same_config p (self st)) by assumption.
  destruct (_resolve_target p spider it) as [k0|e].
  - assert (Hflip : (if decide (Return k0 = Return k) then [asdict it] else [])
                    = if decide (k0 = k) then [asdict it] else []).
    { repeat case_decide; simplify_eq; done. }
    rewrite Hflip.
    assert (Hbuf : concat (delivered k (Loader.sent (net (buffered k0 it st))))
                     ++ buffer_of k (buffered k0 it st)
                   = (concat (delivered k (Loader.sent (net st))) ++ buffer_of k st)
                     ++ (if decide (k0 = k) then [asdict it] else [])).
    { change (net (buffered k0 it st)) with (net st).
      destruct (decide (k0 = k)) as [<-|Hk].
      - now rewrite buffer_of_buffered_eq, app_assoc.
      - rewrite buffer_of_buffered_ne by assumption. now rewrite app_nil_r. }
    rewrite <- Hbuf.
    destruct (_ <=? _); [apply flush_preserves_delivered | reflexivity].
  - rewrite decide_False by discriminate. now rewrite app_nil_r.
Qed.

Lemma submit_all_preserves_delivered E p spider items :
  forall done st,
    same_config p (self st) ->
    (forall k, concat (delivered k (Loader.sent (net st))) ++ buffer_of k st
               = submitted_for p spider k done) ->
    forall k, concat (delivered k (Loader.sent (net (submit_all E spider items st))))
                ++ buffer_of k (submit_all E spider items st)
              = submitted_for p spider k (done ++ items).
Proof.
  induction items as [|it items IH]; intros done st Hcfg Hinv k.
  - rewrite app_nil_r. apply Hinv.
  - replace (done ++ it :: items) with ((done ++ [it]) ++ items)
      by now rewrite <- app_assoc.
    cbn [submit_all fold_left]. apply IH.
    + eapply same_config_trans; [exact Hcfg | apply submit_config].
    + now apply submit_preserves_delivered.
Qed.

(** X1.  Nothing is lost and nothing is accepted twice, also when loads fail: in
    every run, for each destination, the batches the endpoint accepted,
    concatenated in call order, followed by what is still in the buffer, are
    exactly the records submitted for it, in submission order.  If
    [close_spider] returns normally nothing is left in any buffer. *)
Theorem accepted_plus_buffered_is_submitted E spider items ld db tbl b k :
  let p := init ld db tbl b in
  let r := session E spider items (start p) in
  concat (delivered k (Loader.sent (net (fst r)))) ++ buffer_of k (fst r)
  = submitted_for p spider k items
  /\ (snd r = Return tt -> buffer_of k (fst r) = []).
Proof.
  cbn zeta. split.
  - revert k.
    apply (close_spider_preserves E spider
             (fun st => forall k,
                concat (delivered k (Loader.sent (net st))) ++ buffer_of k st
                = submitted_for (init ld db tbl b) spider k items)).
    + intros st d t H k. rewrite flush_preserves_delivered. apply H.
    + intros st r H. exact H.
    + apply (submit_all_preserves_delivered E (init ld db tbl b) spider items []);
        [apply same_config_refl|].
      intros k. reflexivity.
  - intros Hret. unfold session in *.
    destruct (close_spider_spec E spider
                (submit_all E spider items (start (init ld db tbl b))))
      as (calls & _ & _ & [(_ & _ & Hempty & _) | (cs & c & e & _ & _ & _ & Hraise & _)]).
    + apply Hempty.
    + rewrite Hraise in Hret. discriminate.
Qed.

Example accepted_after_a_failed_load :
  let r := session first_fails QuotesSpider (quotes 3)
             (start (init demo_loader "demo" "items" 2)) in
  Http.ok <$> (Loader.c_outcome <$> Loader.sent (net (fst r))) = [false; true]
  /\ delivered ("demo", "quotes") (Loader.sent (net (fst r))) = [quotes 3].
Proof. vm_compute. split; reflexivity. Qed.

(** ** What one submission does *)

(** X2.  [process_item] on a record that resolves to [k], by the size the buffer
    of [k] reaches.  Below the batch size the record is appended and nothing
    is sent.  At or above it, one [load] call carries the whole buffer with
    the new record last; if the call succeeds the buffer is emptied, if it
    fails [process_item] raises and the buffer keeps every record, the new
    one included.  Whenever [process_item] returns, it returns the item it
    was given. *)
Theorem process_item_appends_then_flushes E it spider st k :
  _resolve_target (self st) spider it = Return k ->
  let grown := buffer_of k st ++ [asdict it] in
  let r := process_item E it spider st in
  (Z.of_nat (length grown) < batch_size (self st) ->
   r = (buffered k it st, Return it)
   /\ buffer_of k (fst r) = grown
   /\ Loader.sent (net (fst r)) = Loader.sent (net st))
  /\ (batch_size (self st) <= Z.of_nat (length grown) ->
      let c := next_call E (fst k) (snd k) (buffered k it st) in
      Loader.c_records c = grown
      /\ Loader.sent (net (fst r)) = Loader.sent (net st) ++ [c]
      /\ if Http.ok (Loader.c_outcome c)
         then snd r = Return it /\ buffer_of k (fst r) = []
         else returned (snd r) = false /\ buffer_of k (fst r) = grown).
Proof.
  intros Hres grown r. subst r.
  rewrite (process_item_resolved E it spider st k Hres).
  rewrite buffer_of_buffered_eq. fold grown.
  assert (Hgrown : buffer_of k (buffered k it st) = grown)
    by apply buffer_of_buffered_eq.
  split.
  - intros Hlt. destruct (Z.leb_spec (batch_size (self st)) (Z.of_nat (length grown)));
      [lia|]. now split_and!.
  - intros Hge. destruct (Z.leb_spec (batch_size (self st)) (Z.of_nat (length grown)));
      [|lia].
    destruct k as [d t]. cbn [fst snd].
    assert (Hne : buffer_of (d, t) (buffered (d, t) it st) <> []).
    { rewrite Hgrown. subst grown. now destruct (buffer_of (d, t) st). }
    destruct (flush_nonempty E d t (buffered (d, t) it st) Hne) as (w & Hsent & _ & Hcase).
    split; [rewrite next_call_records; exact Hgrown|].
    destruct (Http.ok (Loader.c_outcome (next_call E d t (buffered (d, t) it st)))).
    + rewrite Hcase. cbn [fst snd net]. split_and!; auto.
      apply buffer_of_cleared.
    + destruct Hcase as [e ->]. cbn [fst snd net]. split_and!; auto.
Qed.

Lemma process_item_appends_then_flushes_witness :
  process_item healthy (quote 1) QuotesSpider one_buffered
  = (buffered ("demo", "quotes") (quote 1) one_buffered, Return (quote 1)).
Proof.
  apply (process_item_appends_then_flushes healthy (quote 1) QuotesSpider one_buffered
           ("demo", "quotes")).
  - reflexivity.
  - vm_compute. reflexivity.
Defined.

(** X3.  The invariant of the data model: with a batch size of at least 1, as
    long as no load has failed, every buffer holds fewer than [batch_size]
    records after each submission. *)
Theorem buffers_stay_below_batch_size E spider items ld db tbl b k :
  1 <= b ->
  let mid := submit_all E spider items (start (init ld db tbl b)) in
  all_ok (Loader.sent (net mid)) ->
  Z.of_nat (length (buffer_of k mid)) < b.
Proof.
  intros Hpos mid Hok.
  destruct (submit_all_full E (init ld db tbl b) spider items (start (init ld db tbl b)))
    as [_ Hshort]; [apply same_config_refl | exact Hpos | now apply start_full | exact Hok |].
  apply Hshort.
Qed.

Lemma buffers_stay_below_batch_size_witness :
  Z.of_nat
    (length
       (buffer_of ("demo", "quotes")
          (submit_all healthy QuotesSpider (quotes 5)
             (start (init demo_loader "demo" "items" 2)))))
  < 2.
Proof.
  apply (buffers_stay_below_batch_size healthy QuotesSpider (quotes 5)
           demo_loader "demo" "items" 2 ("demo", "quotes")).
  - lia.
  - vm_compute. repeat constructor.
Defined.

(** ** Shutting down twice *)

Lemma close_loop_nothing_buffered E es :
  forall st, (forall k, buffer_of k st = []) ->
             for_each es (close_entry E) st = (st, Return tt).
Proof.
  induction es as [|e es IH]; intros st Hempty; [reflexivity|].
  cbn [for_each]. unfold bind. rewrite close_entry_flush.
  rewrite flush_empty by apply Hempty. now apply IH.
Qed.

(** X8.  A second [close_spider] after one that returned normally sends nothing:
    every buffer is empty, so it makes no [load] call and returns normally
    as well. *)
Theorem close_spider_again_sends_nothing E spider st :
  snd (close_spider E spider st) = Return tt ->
  let st1 := fst (close_spider E spider st) in
  snd (close_spider E spider st1) = Return tt
  /\ Loader.sent (net (fst (close_spider E spider st1))) = Loader.sent (net st1)
  /\ buffers (self (fst (close_spider E spider st1))) = buffers (self st1).
Proof.
  intros Hret st1.
  assert (Hempty : forall k, buffer_of k st1 = []).
  { destruct (close_spider_spec E spider st)
      as (calls & _ & _ & [(_ & _ & Hempty & _) | (cs & c & e & _ & _ & _ & Hraise & _)]).
    - exact Hempty.
    - rewrite Hraise in Hret. discriminate. }
  rewrite (close_spider_unfold E spider st1).
  rewrite (close_loop_nothing_buffered E (buffers (self st1)) st1 Hempty).
  now split_and!.
Qed.

Lemma close_spider_again_sends_nothing_witness :
  Loader.sent
    (net (fst (close_spider healthy QuotesSpider
                 (fst (close_spider healthy QuotesSpider two_buffered)))))
  = Loader.sent (net (fst (close_spider healthy QuotesSpider two_buffered))).
Proof.
  apply (close_spider_again_sends_nothing healthy QuotesSpider two_buffered).
  vm_compute. reflexivity.
Defined.

(** ** Which tier decides the destination *)

(** X10.  A spider that has both attributes, [doris_database] and [doris_table],
    gets exactly these as its destination, whatever its [get_doris_target]
    returns and whatever the pipeline defaults are; if one of them is [None]
    or empty the resolution fails, defaults or not. *)
Theorem static_attributes_decide p spider it d t :
  doris_database spider = Some d ->
  doris_table spider = Some t ->
  _resolve_target p spider it
  = if truthy d && truthy t then Return (str_of_value d, str_of_value t)
    else Raise (ValueError unresolved_message).
Proof.
  intros Hd Ht. unfold _resolve_target. rewrite Hd, Ht.
  destruct (get_doris_target spider) as [g|]; [destruct (g it) as [[a b']|]|];
    simpl; destruct (truthy d), (truthy t); reflexivity.
Qed.

Lemma static_attributes_decide_witness :
  _resolve_target (init demo_loader "demo" "items" 50)
    (DorisSpider "bare" (PyStr "warehouse") PyNone) (quote 0)
  = Raise (ValueError unresolved_message).
Proof.
  apply (static_attributes_decide (init demo_loader "demo" "items" 50)
           (DorisSpider "bare" (PyStr "warehouse") PyNone) (quote 0)
           (PyStr "warehouse") PyNone); reflexivity.
Defined.

(** X11.  A spider without the two attributes: if its [get_doris_target] returns
    a pair, that pair is the destination, and a pair with an empty half
    fails without falling back to the defaults; if there is no
    [get_doris_target] or it returns nothing, the pipeline defaults are the
    destination. *)
Theorem override_decides_without_attributes p spider it :
  doris_database spider = None ->
  doris_table spider = None ->
  _resolve_target p spider it
  = match override_pair spider it with
    | Some (a, b) =>
        if truthy a && truthy b then Return (str_of_value a, str_of_value b)
        else Raise (ValueError unresolved_message)
    | None =>
        if negb (String.eqb (default_database p) "")
           && negb (String.eqb (default_table p) "")
        then Return (default_database p, default_table p)
        else Raise (ValueError unresolved_message)
    end.
Proof.
  intros Hd Ht. unfold _resolve_target, override_pair. rewrite Hd, Ht.
  destruct (get_doris_target spider) as [g|]; [destruct (g it) as [[a b]|]|];
    simpl.
  - destruct (truthy a), (truthy b); reflexivity.
  - destruct (String.eqb (default_database p) ""),
      (String.eqb (default_table p) ""); reflexivity.
  - destruct (String.eqb (default_database p) ""),
      (String.eqb (default_table p) ""); reflexivity.
Qed.

Lemma override_decides_without_attributes_witness :
  _resolve_target (init demo_loader "demo" "items" 50) routing_spider
    [("title", PyStr "news")]
  = Return ("demo", "news").
Proof.
  apply (override_decides_without_attributes (init demo_loader "demo" "items" 50)
           routing_spider [("title", PyStr "news")]); reflexivity.
Defined.

(** X12.  [QuotesSpider.get_doris_target] never yields an empty name: whatever
    the two attributes hold, it returns a pair of non-empty strings, with
    the table [quotes_unknown_author] for an item without a description. *)
Theorem quotes_target_is_never_empty database table it :
  exists a b,
    quotes_get_doris_target database table it = Some (PyStr a, PyStr b)
    /\ a <> "" /\ b <> ""
    /\ (truthy (item_get it "description") = false -> b = "quotes_unknown_author").
Proof.
  unfold quotes_get_doris_target, or_else.
  assert (Hor : forall v (dflt : string), dflt <> "" ->
            exists s, (if truthy v then v else PyStr dflt) = PyStr s /\ s <> "").
  { intros [|s] dflt Hd; cbn; [eauto|].
    destruct (String.eqb_spec s ""); cbn; eauto. }
  destruct (Hor database "demo") as (a & Ha & Hane); [discriminate|].
  destruct (Hor table "quotes") as (b & Hb & Hbne); [discriminate|].
  rewrite Ha, Hb.
  destruct (truthy (item_get it "description")).
  - exists a, b. split_and!; auto; discriminate.
  - exists a, "quotes_unknown_author". split_and!; auto; discriminate.
Qed.

(** ** Configuration *)

(** X13.  [DorisPipeline.from_crawler] yields a pipeline only when Doris is
    enabled and a host and both default names are set.  The pipeline it
    yields starts with no buffers, has a host without trailing slash and
    non-empty defaults, and resolves every item of a spider that brings no
    target of its own to those defaults. *)
Theorem pipeline_from_crawler_is_usable s p :
  Crawler.pipeline_from_crawler s = Crawler.Configured p ->
  Crawler.DORIS_ENABLED s = true
  /\ truthy (Crawler.DORIS_HOST s) = true
  /\ buffers p = []
  /\ batch_size p = Crawler.DORIS_BATCH_SIZE s
  /\ ends_with_slash (Loader.host (loader p)) = false
  /\ nonempty_key (default_database p, default_table p)
  /\ forall spider it,
       doris_database spider = None -> doris_table spider = None ->
       get_doris_target spider = None ->
       _resolve_target p spider it = Return (default_database p, default_table p).
Proof.
  unfold Crawler.pipeline_from_crawler.
  destruct (Crawler.DORIS_ENABLED s); [|discriminate].
  destruct (truthy (Crawler.DORIS_HOST s)); [|discriminate]. cbn [negb].
  destruct (Crawler.DORIS_DEFAULT_DATABASE s) as [|ds]; [discriminate|].
  destruct (Crawler.DORIS_DEFAULT_TABLE s) as [|ts];
    [cbn; rewrite orb_true_r; discriminate|].
  cbn [truthy]. destruct (String.eqb_spec ds "") as [|Hds]; [discriminate|].
  destruct (String.eqb_spec ts "") as [|Hts]; [discriminate|].
  cbn. intros [= <-]. cbn.
  split_and!; try reflexivity.
  - destruct (rstrip_slash_spec (str_of_value (Crawler.DORIS_HOST s))) as (n & _ & Hend).
    exact Hend.
  - now split.
  - intros spider it Hd Ht Hg. unfold _resolve_target. rewrite Hd, Ht, Hg. cbn.
    apply String.eqb_neq in Hds, Hts. now rewrite Hds, Hts.
Qed.

Lemma pipeline_from_crawler_is_usable_witness :
  _resolve_target (init demo_loader "demo" "items" 50) plain_spider (quote 0)
  = Return ("demo", "items").
Proof.
  apply (pipeline_from_crawler_is_usable project_settings
           (init demo_loader "demo" "items" 50)); reflexivity.
Defined.

(** X14.  [from_crawler] refuses exactly the incomplete configurations: it
    raises [NotConfigured] if and only if Doris is disabled, or the host, the
    default database or the default table is missing or empty. *)
Theorem pipeline_from_crawler_refusals s :
  (exists why, Crawler.pipeline_from_crawler s = Crawler.NotConfigured why)
  <-> (Crawler.DORIS_ENABLED s = false
       \/ truthy (Crawler.DORIS_HOST s) = false
       \/ truthy (Crawler.DORIS_DEFAULT_DATABASE s) = false
       \/ truthy (Crawler.DORIS_DEFAULT_TABLE s) = false).
Proof.
  unfold Crawler.pipeline_from_crawler.
  destruct (Crawler.DORIS_ENABLED s), (truthy (Crawler.DORIS_HOST s)),
    (truthy (Crawler.DORIS_DEFAULT_DATABASE s)),
    (truthy (Crawler.DORIS_DEFAULT_TABLE s)); cbn;
    split; intros H; eauto;
    try (destruct H as [why H]; discriminate);
    try (destruct H as [H|[H|[H|H]]]; discriminate).
Qed.

(** ** The proxy middleware *)

Lemma get_proxy_effect E self st :
  snd (Middleware._get_proxy E self st) = store_answer E self st
  /\ Middleware.request (fst (Middleware._get_proxy E self st)) = Middleware.request st
  /\ Middleware.queries (fst (Middleware._get_proxy E self st))
     = Middleware.queries st
       ++ match Middleware.client self with
          | Some _ => [Middleware.proxy_key self]
          | None => []
          end.
Proof.
  unfold store_answer, reply_value, Middleware._get_proxy, Middleware.query,
    Middleware.log, bind, modify, ret, raise.
  destruct (Middleware.client self); cbn; [|now rewrite app_nil_r].
  destruct (Middleware.srandmember E _ _); cbn; auto.
  destruct (Middleware.decode E _ _); cbn; auto.
Qed.

(** X22.  [_get_proxy] turns a Redis error, like an empty or missing
    collection, into [None]; the only exceptions that leave it are those
    [decode] raises on a bytes reply, which sits outside the [try].  In every
    case it has queried the store once, on the configured key, and has left
    the request alone. *)
Theorem get_proxy_raises_only_from_decode E self st c :
  Middleware.client self = Some c ->
  let reply := Middleware.srandmember E (length (Middleware.queries st))
                 (Middleware.proxy_key self) in
  let r := Middleware._get_proxy E self st in
  snd r = reply_value E self reply
  /\ ((exists reason, reply = Middleware.RedisRaises reason) \/ reply = Middleware.Nil ->
      snd r = Return PyNone)
  /\ (forall e, snd r = Raise e ->
        exists b, reply = Middleware.ReplyBytes b
                  /\ Middleware.decode E (Middleware.encoding self) b = Raise e)
  /\ Middleware.request (fst r) = Middleware.request st
  /\ Middleware.queries (fst r) = Middleware.queries st ++ [Middleware.proxy_key self].
Proof.
  intros Hc reply r. subst r.
  destruct (get_proxy_effect E self st) as (Hret & Hreq & Hq).
  unfold store_answer in Hret. rewrite Hc in *. fold reply in Hret.
  split_and!; auto.
  - intros [[reason Hr] | Hr]; rewrite Hret, Hr; reflexivity.
  - intros e He. rewrite Hret in He. unfold reply_value in He.
    destruct reply as [reason| |b|s']; try discriminate.
    exists b. split; [reflexivity|].
    destruct (Middleware.decode E (Middleware.encoding self) b); congruence.
Qed.

Lemma get_proxy_raises_only_from_decode_witness :
  snd (Middleware._get_proxy empty_store (middleware PyNone) fresh_request)
  = Return PyNone.
Proof.
  destruct (get_proxy_raises_only_from_decode empty_store (middleware PyNone)
              fresh_request "redis://localhost:6379/0" eq_refl) as (_ & Hnone & _).
  apply Hnone. right. reflexivity.
Defined.

Example get_proxy_unknown_codec :
  snd (Middleware._get_proxy unknown_codec_store misconfigured_middleware fresh_request)
  = Raise (LookupError "unknown encoding: utf8x").
Proof. reflexivity. Qed.

Lemma process_request_effect E self st :
  truthy (Middleware.meta_get "proxy" (Middleware.request st)) = false ->
  let st' := fst (Middleware.process_request E self st) in
  Middleware.queries st'
  = Middleware.queries st
    ++ match Middleware.client self with
       | Some _ => [Middleware.proxy_key self]
       | None => []
       end
  /\ match store_answer E self st with
     | Return answer =>
         snd (Middleware.process_request E self st) = Return tt
         /\ Middleware.meta (Middleware.request st')
            = if truthy answer
              then <["proxy" := answer]> (Middleware.meta (Middleware.request st))
              else if truthy (Middleware.fallback_proxy self)
              then <["proxy" := Middleware.fallback_proxy self]>
                     (Middleware.meta (Middleware.request st))
              else Middleware.meta (Middleware.request st)
     | Raise e =>
         snd (Middleware.process_request E self st) = Raise e
         /\ Middleware.request st' = Middleware.request st
     end.
Proof.
  intros Hcur. cbn zeta.
  destruct (get_proxy_effect E self st) as (Hret & Hreq & Hq).
  unfold Middleware.process_request, bind, gets. rewrite Hcur.
  destruct (Middleware._get_proxy E self st) as [[req1 q1 l1] r1].
  cbn [fst snd Middleware.request Middleware.queries] in *. subst req1 q1.
  rewrite <- Hret.
  unfold Middleware.set_proxy, Middleware.log, modify, ret.
  destruct r1 as [answer|e]; [|cbn; auto].
  destruct (truthy answer); [|destruct (truthy (Middleware.fallback_proxy self))];
    cbn; auto.
Qed.

(** X23.  [process_request] touches nothing of a request but
    [meta["proxy"]]: every other key of [meta] is as before.  It queries the
    store at most once, and for a request that already has a proxy it does
    nothing at all.  If it raises, the exception is the one [decode] raised
    on the store's reply, and the request is unchanged. *)
Theorem process_request_only_sets_proxy E self st (k : string) :
  k <> "proxy" ->
  let r := Middleware.process_request E self st in
  Middleware.meta (Middleware.request (fst r)) !! k
  = Middleware.meta (Middleware.request st) !! k
  /\ (length (Middleware.queries (fst r)) <= S (length (Middleware.queries st)))%nat
  /\ (truthy (Middleware.meta_get "proxy" (Middleware.request st)) = true ->
      r = (st, Return tt))
  /\ (forall e, snd r = Raise e ->
        store_answer E self st = Raise e
        /\ Middleware.request (fst r) = Middleware.request st).
Proof.
  intros Hk r. subst r.
  destruct (truthy (Middleware.meta_get "proxy" (Middleware.request st))) eqn:Hcur.
  - rewrite process_request_keeps_assignment by assumption. cbn.
    split_and!; auto. intros e He. discriminate.
  - destruct (process_request_effect E self st Hcur) as (Hq & Hcase).
    split_and!; [| | discriminate |].
    + destruct (store_answer E self st) as [answer|e].
      * destruct Hcase as [_ Hmeta]. rewrite Hmeta.
        repeat case_match; rewrite ?lookup_insert_ne by congruence; reflexivity.
      * destruct Hcase as [_ Hreq]. now rewrite Hreq.
    + rewrite Hq, length_app. destruct (Middleware.client self); cbn; lia.
    + intros e He. destruct (store_answer E self st) as [answer|e'].
      * destruct Hcase as [Hret _]. rewrite Hret in He. discriminate.
      * destruct Hcase as [Hret Hreq]. rewrite Hret in He. injection He as ->.
        now split.
Qed.

Lemma process_request_only_sets_proxy_witness :
  Middleware.meta
    (Middleware.request
       (fst (Middleware.process_request stocked_store (middleware PyNone) fresh_request)))
    !! "download_timeout" = None.
Proof.
  apply (process_request_only_sets_proxy stocked_store (middleware PyNone)
           fresh_request "download_timeout").
  discriminate.
Defined.

(** X24.  The order of preference on a request without a proxy.  If
    [_get_proxy] comes back with a non-empty proxy it is assigned; if it
    comes back with none (a Redis error, an empty collection, or bytes that
    decode to nothing) the fallback is assigned if one is configured, and
    otherwise [meta] is left as it is.  If [decode] raises on the reply,
    [process_request] raises the same exception and assigns nothing, the
    fallback included. *)
Theorem process_request_prefers_store E self st c :
  truthy (Middleware.meta_get "proxy" (Middleware.request st)) = false ->
  Middleware.client self = Some c ->
  let r := Middleware.process_request E self st in
  match reply_value E self
          (Middleware.srandmember E (length (Middleware.queries st))
             (Middleware.proxy_key self)) with
  | Return from_store =>
      snd r = Return tt
      /\ Middleware.meta (Middleware.request (fst r))
         = if truthy from_store
           then <["proxy" := from_store]> (Middleware.meta (Middleware.request st))
           else if truthy (Middleware.fallback_proxy self)
           then <["proxy" := Middleware.fallback_proxy self]>
                  (Middleware.meta (Middleware.request st))
           else Middleware.meta (Middleware.request st)
  | Raise e =>
      snd r = Raise e /\ Middleware.request (fst r) = Middleware.request st
  end.
Proof.
  intros Hcur Hc. cbn zeta.
  destruct (process_request_effect E self st Hcur) as (_ & Hcase).
  unfold store_answer in Hcase. now rewrite Hc in Hcase.
Qed.

Lemma process_request_prefers_store_witness :
  snd (Middleware.process_request unknown_codec_store misconfigured_middleware
         fresh_request)
  = Raise (LookupError "unknown encoding: utf8x")
  /\ Middleware.request
       (fst (Middleware.process_request unknown_codec_store misconfigured_middleware
               fresh_request))
     = Middleware.request fresh_request.
Proof.
  apply (process_request_prefers_store unknown_codec_store misconfigured_middleware
           fresh_request "redis://localhost:6379/0"); reflexivity.
Defined.

Example process_request_falls_back_on_garbled_bytes :
  Middleware.meta
    (Middleware.request
       (fst (Middleware.process_request garbled_store
               (middleware (PyStr "http://fallback:3128")) fresh_request)))
  = <["proxy" := PyStr "http://fallback:3128"]> ∅.
Proof. reflexivity. Qed.

Lemma repeat_keeps_assignment E self st (n : nat) :
  truthy (Middleware.meta_get "proxy" (Middleware.request st)) = true ->
  Middleware.repeat_process_request E self n st = (st, Return tt).
Proof.
  intros H. induction n as [|n IH]; [reflexivity|].
  cbn [Middleware.repeat_process_request]. unfold bind.
  now rewrite process_request_keeps_assignment.
Qed.

(** X25.  Once assigned, a proxy stays: if in one call of
    [process_request] on a request without a proxy [_get_proxy] came back
    (with a proxy or with none) and the store's answer or else the fallback
    is a non-empty proxy, the request carries it afterwards, and any number
    of further calls change nothing and query the store no more. *)
Theorem assigned_proxy_is_kept E self st answer (n : nat) :
  truthy (Middleware.meta_get "proxy" (Middleware.request st)) = false ->
  store_answer E self st = Return answer ->
  let chosen := if truthy answer then answer else Middleware.fallback_proxy self in
  truthy chosen = true ->
  let st1 := fst (Middleware.process_request E self st) in
  Middleware.meta_get "proxy" (Middleware.request st1) = chosen
  /\ Middleware.repeat_process_request E self n st1 = (st1, Return tt).
Proof.
  intros Hcur Hanswer chosen Hchosen st1.
  destruct (process_request_effect E self st Hcur) as (_ & Hcase).
  rewrite Hanswer in Hcase. destruct Hcase as [_ Hmeta]. fold st1 in Hmeta.
  assert (Hget : Middleware.meta_get "proxy" (Middleware.request st1) = chosen).
  { unfold Middleware.meta_get. rewrite Hmeta. subst chosen.
    destruct (truthy answer); [now rewrite lookup_insert_eq|].
    rewrite Hchosen. now rewrite lookup_insert_eq. }
  split; [exact Hget|].
  apply repeat_keeps_assignment. now rewrite Hget.
Qed.

Lemma assigned_proxy_is_kept_witness :
  Middleware.repeat_process_request stocked_store (middleware PyNone) 3
    (fst (Middleware.process_request stocked_store (middleware PyNone) fresh_request))
  = (fst (Middleware.process_request stocked_store (middleware PyNone) fresh_request),
     Return tt).
Proof.
  apply (assigned_proxy_is_kept stocked_store (middleware PyNone) fresh_request
           (PyStr "http://10.0.0.7:3128") 3);
    reflexivity.
Defined.

(** X26.  A middleware obtained from [from_crawler] has a client, made by
    [redis.from_url] from the configured URL, and a non-empty proxy key; so
    for every request without a proxy it queries the store exactly once, on
    that key. *)
Theorem middleware_from_crawler_is_usable redis s m :
  Crawler.middleware_from_crawler redis s = Crawler.Configured m ->
  (exists from_url c,
      redis = Some from_url
      /\ from_url (Middleware.redis_url m) = Some c
      /\ Middleware.client m = Some c)
  /\ Crawler.REDIS_PROXY_URL s = PyStr (Middleware.redis_url m)
  /\ Crawler.REDIS_PROXY_KEY s = PyStr (Middleware.proxy_key m)
  /\ Middleware.redis_url m <> ""
  /\ Middleware.proxy_key m <> ""
  /\ Middleware.fallback_proxy m = Crawler.REDIS_PROXY_FALLBACK s
  /\ forall E st,
       truthy (Middleware.meta_get "proxy" (Middleware.request st)) = false ->
       Middleware.queries (fst (Middleware.process_request E m st))
       = Middleware.queries st ++ [Middleware.proxy_key m].
Proof.
  unfold Crawler.middleware_from_crawler, Crawler.middleware_init.
  destruct (Crawler.REDIS_PROXY_URL s) as [|url]; [discriminate|].
  destruct (Crawler.REDIS_PROXY_KEY s) as [|key];
    [cbn; rewrite orb_true_r; discriminate|].
  cbn [truthy]. destruct (String.eqb_spec url "") as [|Hurl]; [discriminate|].
  destruct (String.eqb_spec key "") as [|Hkey]; [discriminate|].
  cbn [negb orb str_of_value].
  destruct redis as [from_url|]; [|discriminate].
  destruct (from_url url) as [c|] eqn:Hc; [|discriminate].
  intros [= <-]. cbn. split_and!; auto.
  - exists from_url, c. auto.
  - intros E st Hcur.
    destruct (process_request_effect E
                {| Middleware.redis_url := url; Middleware.proxy_key := key;
                   Middleware.encoding := Crawler.REDIS_PROXY_ENCODING s;
                   Middleware.fallback_proxy := Crawler.REDIS_PROXY_FALLBACK s;
                   Middleware.client := Some c |} st Hcur) as (Hq & _).
    exact Hq.
Qed.

Lemma middleware_from_crawler_is_usable_witness :
  Middleware.queries
    (fst (Middleware.process_request empty_store (middleware PyNone) fresh_request))
  = ["scrapy:proxies"].
Proof.
  destruct (middleware_from_crawler_is_usable redis_installed project_settings
              (middleware PyNone) eq_refl) as (_ & _ & _ & _ & _ & _ & Hq).
  apply (Hq empty_store fresh_request). reflexivity.
Defined.

(** X27.  The middleware is refused, with [NotConfigured], exactly when the URL
    or the key is missing or empty, the [redis] package is not installed, or
    [redis.from_url] raises; in no case is a middleware without client
    built. *)
Theorem middleware_from_crawler_refusals redis s :
  (exists why, Crawler.middleware_from_crawler redis s = Crawler.NotConfigured why)
  <-> (truthy (Crawler.REDIS_PROXY_URL s) = false
       \/ truthy (Crawler.REDIS_PROXY_KEY s) = false
       \/ redis = None
       \/ exists from_url,
            redis = Some from_url
            /\ from_url (str_of_value (Crawler.REDIS_PROXY_URL s)) = None).
Proof.
  unfold Crawler.middleware_from_crawler, Crawler.middleware_init.
  destruct (truthy (Crawler.REDIS_PROXY_URL s)); cbn [negb orb];
    [|split; [intros _; now left | intros _; eauto]].
  destruct (truthy (Crawler.REDIS_PROXY_KEY s)); cbn [negb orb];
    [|split; [intros _; right; now left | intros _; eauto]].
  destruct redis as [from_url|];
    [|split; [intros _; right; right; now left | intros _; eauto]].
  destruct (from_url (str_of_value (Crawler.REDIS_PROXY_URL s))) eqn:Hc.
  - split.
    + intros [why H]. discriminate.
    + intros [H|[H|[H|(f & [= <-] & H)]]]; try discriminate. congruence.
  - split; [|intros _; eauto].
    intros _. right. right. right. eauto.
Qed.

(** ** The order of the loads at shutdown *)

Lemma close_loop_in_order E es :
  forall st,
    NoDup (Dict.keys es) ->
    (forall k v, (k, v) ∈ es -> buffer_of k st = v) ->
    snd (for_each es (close_entry E) st) = Return tt ->
    exists calls,
      Loader.sent (net (fst (for_each es (close_entry E) st)))
      = Loader.sent (net st) ++ calls
      /\ (fun c => (key_of c, Loader.c_records c)) <$> calls
         = filter (fun e => snd e <> []) es.
Proof.
  induction es as [|[[d t] v] es IH]; intros st Hnd Hbuf Hret.
  - exists []. cbn. now rewrite app_nil_r.
  - unfold Dict.keys in Hnd. cbn [map fst] in Hnd.
    apply NoDup_cons in Hnd as [Hfresh Hnd].
    cbn [for_each] in *. unfold bind in *. rewrite close_entry_flush in *.
    cbn [fst snd] in *.
    pose proof (flush_sent E d t st) as Hsent.
    assert (Hv : buffer_of (d, t) st = v) by (apply Hbuf, elem_of_cons; auto).
    assert (Hframe : forall k' v', (k', v') ∈ es ->
              buffer_of k' (fst (_flush E d t st)) = v').
    { intros k' v' Hin. unfold buffer_of. rewrite flush_frame.
      - apply (Hbuf k' v'). apply elem_of_cons. auto.
      - intros ->. apply Hfresh. change (d, t) with (fst ((d, t), v')).
        apply list_elem_of_In, in_map, list_elem_of_In. exact Hin. }
    destruct (_flush E d t st) as [st1 [[]|e]] eqn:Hfl; cbn [fst snd] in *;
      [|discriminate].
    destruct (IH st1 Hnd Hframe Hret) as (calls & Hs & Hpairs).
    exists (flush_calls E d t st ++ calls). split.
    + now rewrite Hs, Hsent, app_assoc.
    + rewrite fmap_app, Hpairs, filter_cons. cbn [snd].
      unfold flush_calls. rewrite Hv.
      destruct v as [|r rs].
      * rewrite decide_False by auto. reflexivity.
      * rewrite decide_True by discriminate. cbn [fmap list_fmap app].
        rewrite (next_call_key E d t st).
        rewrite (next_call_records E d t st).
        now rewrite Hv.
Qed.

(** X7.  What goes out at shutdown: when [close_spider] returns normally after
    a run, the loads it made are exactly the non-empty entries of the buffer
    dict, one load per entry with the entry's records, in the order of the
    dict, that is, the order in which the destinations were first seen. *)
Theorem close_spider_sends_in_dict_order E spider items ld db tbl b :
  let mid := submit_all E spider items (start (init ld db tbl b)) in
  snd (close_spider E spider mid) = Return tt ->
  exists calls,
    Loader.sent (net (fst (close_spider E spider mid)))
    = Loader.sent (net mid) ++ calls
    /\ (fun c => (key_of c, Loader.c_records c)) <$> calls
       = filter (fun e => snd e <> []) (buffers (self mid)).
Proof.
  intros mid Hret.
  assert (Hnd : NoDup (Dict.keys (buffers (self mid)))).
  { subst mid. rewrite submit_all_keys. apply first_seen_NoDup. constructor. }
  rewrite close_spider_unfold in *.
  destruct (for_each (buffers (self mid)) (close_entry E) mid) as [st1 r] eqn:Hloop.
  destruct (close_loop_in_order E (buffers (self mid)) mid Hnd) as (calls & Hs & Hpairs).
  - intros k v Hin. unfold buffer_of. now rewrite (get_of_entry _ k v Hnd Hin).
  - rewrite Hloop. destruct r as [[]|e]; [reflexivity | discriminate].
  - rewrite Hloop in Hs. cbn [fst] in Hs.
    destruct r as [[]|e]; [|discriminate].
    exists calls. split; [exact Hs | exact Hpairs].
Qed.

Lemma close_spider_sends_in_dict_order_witness :
  exists calls,
    Loader.sent
      (net (fst (close_spider healthy routing_spider
                   (submit_all healthy routing_spider
                      [[("title", PyStr "b")]; [("title", PyStr "a")]]
                      (start (init demo_loader "demo" "items" 50))))))
    = [] ++ calls
    /\ (fun c => (key_of c, Loader.c_records c)) <$> calls
       = [(("demo", "b"), [[("title", PyStr "b")]]);
          (("demo", "a"), [[("title", PyStr "a")]])].
Proof.
  apply (close_spider_sends_in_dict_order healthy routing_spider
           [[("title", PyStr "b")]; [("title", PyStr "a")]]
           demo_loader "demo" "items" 50).
  vm_compute. reflexivity.
Defined.
